(** * Confluence chatbot: chunking, context assembly and conversation memory

    A shallow embedding of the pure parts of [module/collect_data.py]
    (the page chunker [split_string_by_markers] and the table splitter
    [split_table]) and of [app.py] (the context assembler [get_context]
    and the conversation memory handled by [contruct_prompt] and
    [run_chatbot]), with the properties the specification states about
    them.

    Python [str] values are modelled by [string]: the functions below
    only count, compare and concatenate characters, so the characters of
    [ascii] stand for those of Python.  [len] is [String.length], and
    Python integers are integers of [Z].  The two sizes of
    [split_string_by_markers] are annotated [int] in the source; its one
    caller passes floats, and comparing a length with a float is
    comparing it with the integer below (for [<=]) or above (for [>=])
    that float.  Python lists are Rocq lists; a list that the source
    mutates in place is threaded through the functions as explicit
    state.  The constants of the configuration that the properties speak
    about are variables of the sections, and their configured values are
    given after each section. *)

From Stdlib Require Import ZArith List Bool Ascii String Lia Arith.
From Stdlib Require Import DecimalString DecimalNat.
Import ListNotations.

Local Open Scope list_scope.
Local Open Scope string_scope.

(* ================================================================== *)
(** * Python string operations *)
(* ================================================================== *)

Module PyStr.

(** [len(s)] as a Python integer. *)
Definition len (s : string) : Z := Z.of_nat (String.length s).

(** [s[:n]] for a non-negative [n]. *)
Definition take (n : nat) (s : string) : string := substring 0 n s.

(** [s[n:]] for a non-negative [n]. *)
Definition drop (n : nat) (s : string) : string :=
  substring n (String.length s - n) s.

(** [s[:-3]]: the slice stops three characters before the end, and is
    empty when the string has fewer than three characters. *)
Definition strip3 (s : string) : string := take (String.length s - 3) s.

(** [sep.join(parts)]. *)
Definition join (sep : string) (parts : list string) : string :=
  String.concat sep parts.

(** [''.join(parts)]. *)
Definition flatten (parts : list string) : string :=
  fold_right append "" parts.

(** The scan of [str.split(sep)] for a non-empty [sep]: the text is read
    from left to right; where [sep] occurs the segment read so far is
    closed and the scan resumes after the occurrence ([skip] counts the
    characters of the occurrence still to pass over). *)
Fixpoint split_scan (sep : string) (skip : nat) (seg : string) (s : string)
  : list string :=
  match s with
  | EmptyString => [seg]
  | String c s' =>
      match skip with
      | S k => split_scan sep k seg s'
      | O =>
          if prefix sep s
          then seg :: split_scan sep (String.length sep - 1) "" s'
          else split_scan sep 0 (seg ++ String c "") s'
      end
  end.

(** [s.split(sep)]; Python raises [ValueError] on an empty separator. *)
Definition split (sep s : string) : option (list string) :=
  if (sep =? "")%string then None else Some (split_scan sep 0 "" s).

End PyStr.

(* ================================================================== *)
(** * module/collect_data.py: the page chunker *)
(* ================================================================== *)

Module Chunker.
Import PyStr.

(** The two local variables of [split_string_by_markers]. *)
Record state : Type := mkState {
  result : list string;
  current_part : string
}.

Definition initial : state := mkState [] "".

(** Where a part of the result comes from: the statement that appended it,
    with the accumulator and the segment at hand at that moment. *)
Inductive emission : Type :=
| Flush (acc split : string)         (* line 117; [split] is not used there *)
| ForcedAppend (acc split : string)  (* line 122 *)
| FinalFlush (acc : string).         (* line 126 *)

Definition is_forced (e : emission) : bool :=
  match e with ForcedAppend _ _ => true | _ => false end.

Definition is_flush (e : emission) : bool :=
  match e with Flush _ _ => true | _ => false end.

(** The loop of the source with every [result.append] recorded. *)
Record traced : Type := mkTraced {
  emitted : list emission;
  current : string
}.

Section Loop.

Variable marker : string.
Variables min_part_size max_part_size : Z.

(** One iteration of [for split in splits] (lines 110-123). *)
Definition loop_body (st : state) (split : string) : state :=
  if (len (current_part st) + len split + len marker <=? max_part_size)%Z
  then mkState (result st) (current_part st ++ (split ++ marker))
  else
    if (len (current_part st) >=? min_part_size)%Z
    then mkState (result st ++ [strip3 (current_part st)])%list ""
    else
      let current := current_part st ++ (split ++ marker) in
      mkState (result st ++ [strip3 current])%list "".

(** The statement after the loop (lines 125-126): a non-empty
    accumulator is flushed. *)
Definition finish (st : state) : list string :=
  if (current_part st =? "")%string then result st
  else (result st ++ [strip3 (current_part st)])%list.

Definition run_loop (splits : list string) : state :=
  fold_left loop_body splits initial.

(** The string that a recorded [result.append] slices with [[:-3]]. *)
Definition accumulated (e : emission) : string :=
  match e with
  | Flush acc _ => acc
  | ForcedAppend acc split => acc ++ (split ++ marker)
  | FinalFlush acc => acc
  end.

Definition part_of (e : emission) : string := strip3 (accumulated e).

Definition traced_body (st : traced) (split : string) : traced :=
  if (len (current st) + len split + len marker <=? max_part_size)%Z
  then mkTraced (emitted st) (current st ++ (split ++ marker))
  else
    if (len (current st) >=? min_part_size)%Z
    then mkTraced (emitted st ++ [Flush (current st) split])%list ""
    else mkTraced (emitted st ++ [ForcedAppend (current st) split])%list "".

Definition traced_finish (st : traced) : list emission :=
  if (current st =? "")%string then emitted st
  else (emitted st ++ [FinalFlush (current st)])%list.

Definition traced_loop (splits : list string) : traced :=
  fold_left traced_body splits (mkTraced [] "").

(** The test of line 112 fails: appending would exceed the maximum. *)
Definition overflows (acc split : string) : Prop :=
  (len acc + len split + len marker > max_part_size)%Z.

(** An accumulator is empty, or it was built by line 113 alone: it
    ends with the marker and passed the test of line 112. *)
Definition built (acc : string) : Prop :=
  acc = "" \/
  ((exists body, acc = body ++ marker) /\ (len acc <= max_part_size)%Z).

(** What the branch conditions say about a recorded [result.append]. *)
Definition recorded (e : emission) : Prop :=
  match e with
  | Flush acc split =>
      overflows acc split /\ (min_part_size <= len acc)%Z /\ built acc
  | ForcedAppend acc split =>
      overflows acc split /\ (len acc < min_part_size)%Z /\ built acc
  | FinalFlush acc => acc <> "" /\ built acc
  end.

(** Everything appended to the accumulator so far that was not thrown
    away by a flush: the accumulated strings of the emissions, then
    the accumulator. *)
Definition text_of (t : traced) : string :=
  flatten (map accumulated (emitted t)) ++ current t.

(** The traced loop and the loop of the source run in lock step. *)
Definition erases (t : traced) (st : state) : Prop :=
  result st = map part_of (emitted t) /\ current_part st = current t.

(** The branch conditions hold of everything the loop records. *)
Definition sound (t : traced) : Prop :=
  Forall recorded (emitted t) /\ built (current t).

End Loop.

(** [split_string_by_markers(input_string, marker, min_part_size,
    max_part_size)]; [None] stands for the [ValueError] that
    [input_string.split(marker)] raises for an empty marker. *)
Definition split_string_by_markers
    (input_string marker : string) (min_part_size max_part_size : Z)
  : option (list string) :=
  match split marker input_string with
  | None => None
  | Some splits =>
      Some (finish (run_loop marker min_part_size max_part_size splits))
  end.

(** The same call with the origin of every returned part. *)
Definition split_trace
    (input_string marker : string) (min_part_size max_part_size : Z)
  : option (list emission) :=
  match split marker input_string with
  | None => None
  | Some splits =>
      Some (traced_finish
              (traced_loop marker min_part_size max_part_size splits))
  end.

(** Line feed, and the configured [marker = '\n##']. *)
Definition LF : string := String (ascii_of_nat 10) "".
Definition marker : string := LF ++ "##".

End Chunker.

(* ================================================================== *)
(** * module/collect_data.py: the table splitter *)
(* ================================================================== *)

Module Tables.

(** A pandas data frame as far as [split_table] looks at it: the column
    labels and the rows, in order. *)
Record DataFrame : Type := mkDataFrame {
  columns : list string;
  rows : list (list string)
}.

(** [len(table_df)]. *)
Definition df_len (df : DataFrame) : Z := Z.of_nat (List.length (rows df)).

(** [table_df[i:j]] for [0 <= i]: a slice of the rows, columns kept. *)
Definition df_slice (df : DataFrame) (i j : Z) : DataFrame :=
  mkDataFrame (columns df)
              (firstn (Z.to_nat (j - i)) (skipn (Z.to_nat i) (rows df))).

(** [pd.concat([pd.DataFrame(columns = header), chunk], ignore_index =
    True)] for a chunk whose columns are [header]: an empty frame with
    the header, followed by the rows of the chunk. *)
Definition concat_header (header : list string) (chunk : DataFrame)
  : DataFrame :=
  mkDataFrame header (rows chunk).

(** The values of [range(start, stop, step)] for a positive step, as the
    loop [i = start; while i < stop: yield i; i += step]. *)
Fixpoint range_loop (fuel : nat) (i stop step : Z) : list Z :=
  match fuel with
  | O => []
  | S fuel' =>
      if (i <? stop)%Z then i :: range_loop fuel' (i + step) stop step
      else []
  end.

(** [range(0, stop, step)] with [0 <= stop]: a [ValueError] for step 0,
    nothing for a negative step. *)
Definition range0 (stop step : Z) : option (list Z) :=
  if (step =? 0)%Z then None
  else if (step <? 0)%Z then Some []
  else Some (range_loop (Z.to_nat stop) 0 stop step).

(** [ceil(a / b)] on integers, [b] positive, [a] non-negative. *)
Definition ceil_div (a b : Z) : Z := ((a + b - 1) / b)%Z.

Section Config.

Variable max_rows_per_table : Z.

(** [split_table(table_df)] (lines 59-75).  [runs], computed on line 67
    and never read, only matters because [len(table_df) /
    max_rows_per_table] raises [ZeroDivisionError] for a limit of 0. *)
Definition split_table (table_df : DataFrame) : option (list DataFrame) :=
  let header := columns table_df in
  match range0 (df_len table_df) max_rows_per_table with
  | None => None
  | Some starts =>
      let chunks :=
        map (fun i => df_slice table_df i (i + max_rows_per_table)) starts in
      Some (map (concat_header header) chunks)
  end.

(** The frames that [replace_table] renders (lines 87-96): the groups
    of [split_table] for a table above the limit, the table itself
    otherwise. *)
Definition tables_to_render (table_df : DataFrame)
  : option (list DataFrame) :=
  if (df_len table_df >? max_rows_per_table)%Z
  then split_table table_df
  else Some [table_df].

End Config.

(** The configured limit (line 24). *)
Definition configured_max_rows_per_table : Z := 30.

End Tables.

(* ================================================================== *)
(** * app.py: the context assembler *)
(* ================================================================== *)

Module Context.
Import PyStr.

(** A row of [pages_df]. *)
Record page : Type := mkPage {
  space : string;
  title : string;
  page_content : string;
  link : string;
  num_tokens : Z
}.

(** The two local variables of [get_context]. *)
Record chosen : Type := mkChosen {
  chosen_pages_content : list string;
  sum_tokens_chosen : Z
}.

(** [context_message] (line 37). *)
Definition context_message : string :=
  "Informationen und Anleitungen aus dem Wiki: " ++ Chunker.LF.

Section Config.

Variable max_tokens_per_context : Z.

(** The loop of [get_context] (lines 143-153) over the rows of the
    frame in index order; [break] ends the recursion.  The [print]
    calls do not change what is chosen and are left out. *)
Fixpoint choose (pages : list page) (st : chosen) : chosen :=
  match pages with
  | [] => st
  | page :: rest =>
      if (sum_tokens_chosen st + num_tokens page >? max_tokens_per_context)%Z
      then st
      else choose rest
             (mkChosen (chosen_pages_content st ++ [page_content page])%list
                       (sum_tokens_chosen st + (num_tokens page + 4))%Z)
  end.

(** [get_context(query, pages_df)]. *)
Definition get_context (query : string) (pages_df : list page) : string :=
  let st := choose pages_df (mkChosen [] 0%Z) in
  context_message
    ++ join (Chunker.LF ++ Chunker.LF) (chosen_pages_content st).

End Config.

(** What line 153 adds to [sum_tokens_chosen] over a list of pages: the
    tokens of each page and 4 more for its separator. *)
Definition tokens_with_separators (pages : list page) : Z :=
  fold_right (fun page total => (num_tokens page + 4 + total)%Z) 0%Z pages.

(** The configured budget (line 40). *)
Definition configured_max_tokens_per_context : Z := 3490.

End Context.

(* ================================================================== *)
(** * app.py: the conversation memory *)
(* ================================================================== *)

Module Memory.
Import PyStr.

(** The three values of the key ["role"]. *)
Inductive Role : Type := system | assistant | user.

(** A message [{"role": ..., "content": ...}]. *)
Record message : Type := mkMessage {
  role : Role;
  content : string
}.

(** [del l[i:j]] for [0 <= i <= j]. *)
Definition del_slice {A : Type} (i j : nat) (l : list A) : list A :=
  (firstn i l ++ skipn j l)%list.

(** What [run_chatbot] reads in one pass of its loop: the line typed by
    the user, the frame that [sort_documents] returns for it, and the
    fragments that the completion stream yields. *)
Record turn : Type := mkTurn {
  query : string;
  ranked : list Context.page;
  fragments : list string
}.

(** The loop of [run_chatbot] is between two passes ([AwaitQuery]) or
    inside [ask], after [contruct_prompt] and before the answer is
    appended ([AwaitAnswer]). *)
Inductive phase : Type := AwaitQuery | AwaitAnswer.

Section Config.

(** [system_message] (lines 31-35) and the two tunable constants. *)
Variable system_message : string.
Variable max_tokens_per_context : Z.
Variable max_messages_to_keep : Z.

(** [initialize_memory()]. *)
Definition initialize_memory : list message :=
  ([] ++ [mkMessage system system_message])%list.

(** [contruct_prompt(query, memory, context)].  The source mutates the
    list it is given and returns it; the caller's list is the returned
    one. *)
Definition contruct_prompt
    (query : string) (memory : list message) (context : string)
  : list message :=
  let memory := (memory ++ [mkMessage assistant context])%list in
  let memory := (memory ++ [mkMessage user query])%list in
  if (Z.of_nat (List.length memory) >? max_messages_to_keep)%Z
  then del_slice 1 4 memory
  else memory.

(** Whether the call [contruct_prompt(query, memory, context)] runs
    its [del]. *)
Definition evicts (memory : list message) : bool :=
  (Z.of_nat (List.length memory + 2) >? max_messages_to_keep)%Z.

(** The part of [ask] that touches the memory (lines 101-107), on the
    frame returned by [sort_documents]. *)
Definition ask_memory (t : turn) (memory : list message) : list message :=
  let context :=
    Context.get_context max_tokens_per_context (query t) (ranked t) in
  contruct_prompt (query t) memory context.

(** Lines 210-211: the fragments are joined and appended. *)
Definition append_answer (t : turn) (memory : list message)
  : list message :=
  (memory ++ [mkMessage assistant (join "" (fragments t))])%list.

(** One pass of the [while True] loop for a line other than ['exit']. *)
Definition chat_turn (memory : list message) (t : turn) : list message :=
  append_answer t (ask_memory t memory).

(** [run_chatbot] on the turns typed before ['exit']: the loop stops
    at the first turn whose line is ['exit']. *)
Fixpoint chat_loop (turns : list turn) (memory : list message)
  : list message :=
  match turns with
  | [] => memory
  | t :: rest =>
      if (query t =? "exit")%string then memory
      else chat_loop rest (chat_turn memory t)
  end.

Definition run_chatbot (turns : list turn) : list message :=
  chat_loop turns initialize_memory.

(** The memory of a session as [run_chatbot] changes it, one mutation
    (one call of [contruct_prompt], one appended answer) at a time. *)
Inductive step : list message * phase -> list message * phase -> Prop :=
| step_ask : forall memory t,
    query t <> "exit" ->
    step (memory, AwaitQuery) (ask_memory t memory, AwaitAnswer)
| step_answer : forall memory t,
    step (memory, AwaitAnswer) (append_answer t memory, AwaitQuery).

Inductive reachable : list message * phase -> Prop :=
| reach_init : reachable (initialize_memory, AwaitQuery)
| reach_step : forall s s', reachable s -> step s s' -> reachable s'.

(** What holds of the memory between two mutations of a session: the
    system message is at position 0, and the length is within the cap
    after [contruct_prompt], one above it at most after the answer. *)
Definition session_inv (s : list message * phase) : Prop :=
  nth_error (fst s) 0 = Some (mkMessage system system_message)
  /\ match snd s with
     | AwaitQuery =>
         (Z.of_nat (List.length (fst s)) <= max_messages_to_keep + 1)%Z
     | AwaitAnswer =>
         (Z.of_nat (List.length (fst s)) <= max_messages_to_keep)%Z
     end.

End Config.

(** The configured cap (line 41). *)
Definition configured_max_messages_to_keep : Z := 3.

End Memory.

(* ================================================================== *)
(** * app.py: the context assembler with the integers of numpy *)
(* ================================================================== *)

Module ContextInt64.
Import PyStr Context.

(** [num_tokens] is a column of 64-bit integers of the frame: a row
    gives a [numpy.int64], and so is every sum made with it.  The sum
    of two such integers is taken modulo [2^64] in the range from
    [-2^63] to [2^63 - 1]. *)
Definition wrap_int64 (z : Z) : Z :=
  ((z + 2 ^ 63) mod 2 ^ 64 - 2 ^ 63)%Z.

Definition add_int64 (a b : Z) : Z := wrap_int64 (a + b).

Section Config.

Variable max_tokens_per_context : Z.

(** The loop of [get_context] (lines 143-153) as [Context.choose] has
    it, with the additions of lines 148 and 153 made on 64 bits; the
    comparison with the budget, an integer of Python, is by value. *)
Fixpoint choose (pages : list page) (st : chosen) : chosen :=
  match pages with
  | [] => st
  | page :: rest =>
      if (add_int64 (sum_tokens_chosen st) (num_tokens page)
          >? max_tokens_per_context)%Z
      then st
      else choose rest
             (mkChosen (chosen_pages_content st ++ [page_content page])%list
                       (add_int64 (sum_tokens_chosen st)
                                  (add_int64 (num_tokens page) 4)))
  end.

(** [get_context(query, pages_df)]. *)
Definition get_context (query : string) (pages_df : list page) : string :=
  let st := choose pages_df (mkChosen [] 0%Z) in
  context_message
    ++ join (Chunker.LF ++ Chunker.LF) (chosen_pages_content st).

End Config.

End ContextInt64.

(* ================================================================== *)
(** * app.py: the two mutations of the memory, in any order *)
(* ================================================================== *)

Module MemoryOps.
Import PyStr Memory.

(** The program changes the memory in two places: the call
    [contruct_prompt(query, memory, context)] of line 107, which appends
    the context and the query of a turn, and
    [memory.append({"role": "assistant", "content": answer})] of
    line 211, which appends an answer. *)
Inductive op : Type :=
| AppendTurn (query context : string)
| AppendAnswer (answer : string).

Section Config.

Variable max_messages_to_keep : Z.

Definition apply_op (memory : list message) (o : op) : list message :=
  match o with
  | AppendTurn query context =>
      contruct_prompt max_messages_to_keep query memory context
  | AppendAnswer answer =>
      (memory ++ [mkMessage assistant answer])%list
  end.

(** The operations of a list, from left to right. *)
Definition apply_ops (ops : list op) (memory : list message)
  : list message :=
  fold_left apply_op ops memory.

End Config.

(** No answer is appended directly after another one; [after_answer]
    tells whether the operation before the list appended an answer. *)
Fixpoint answers_apart_from (after_answer : bool) (ops : list op) : bool :=
  match ops with
  | [] => true
  | AppendTurn _ _ :: rest => answers_apart_from false rest
  | AppendAnswer _ :: rest =>
      negb after_answer && answers_apart_from true rest
  end.

Definition answers_apart (ops : list op) : bool :=
  answers_apart_from false ops.

End MemoryOps.

(* ================================================================== *)
(** * app.py: what a session leaves in the memory *)
(* ================================================================== *)

Module Sessions.
Import PyStr Memory.

Section Config.

Variable max_tokens_per_context : Z.

(** The two messages that [contruct_prompt] appends for a turn. *)
Definition asked (t : turn) : list message :=
  [mkMessage assistant
     (Context.get_context max_tokens_per_context (query t) (ranked t));
   mkMessage user (query t)].

(** The three messages of a turn once its answer is appended. *)
Definition answered (t : turn) : list message :=
  (asked t ++ [mkMessage assistant (join "" (fragments t))])%list.

End Config.

(** [l[-k:]] for [k > 0], and the empty list for [k = 0]: the last [k]
    elements, all of them when there are fewer. *)
Definition keep_last {A : Type} (k : nat) (l : list A) : list A :=
  skipn (List.length l - k) l.

(** The turns that the loop of [run_chatbot] goes through: those typed
    before the first line ['exit']. *)
Fixpoint before_exit (turns : list turn) : list turn :=
  match turns with
  | [] => []
  | t :: rest =>
      if (query t =? "exit")%string then [] else t :: before_exit rest
  end.

End Sessions.

(* ================================================================== *)
(** * module/collect_data.py: rendering a table *)
(* ================================================================== *)

Module Render.
Import PyStr Tables.

(** The blank of the pattern [r' {2,}']. *)
Definition blank : ascii := " "%char.

Definition is_blank (c : ascii) : bool := Ascii.eqb c blank.

(** [re.sub(r' {2,}', '  ', s)]: the pattern matches every maximal run
    of two or more blanks, and the run is replaced by two blanks; so the
    first two blanks of a run are kept and the others are dropped.
    [run] counts the blanks just before the rest [s]. *)
Fixpoint collapse_from (run : nat) (s : string) : string :=
  match s with
  | EmptyString => EmptyString
  | String c s' =>
      if is_blank c
      then if (run <? 2)%nat
           then String c (collapse_from (S run) s')
           else collapse_from (S run) s'
      else String c (collapse_from 0 s')
  end.

Definition collapse_blanks (s : string) : string := collapse_from 0 s.

(** The text has three blanks in a row somewhere. *)
Definition has_three_blanks (s : string) : Prop :=
  exists before after,
    s = (before ++ String blank (String blank (String blank after)))%string.

(** No blank of [s] is the third of a run, [run] blanks standing just
    before [s]. *)
Fixpoint spaced (run : nat) (s : string) : Prop :=
  match s with
  | EmptyString => True
  | String c s' =>
      if is_blank c then (run < 2)%nat /\ spaced (S run) s'
      else spaced 0 s'
  end.

(** [n] blanks. *)
Fixpoint blanks (n : nat) : string :=
  match n with
  | O => EmptyString
  | S n' => String blank (blanks n')
  end.

(** The text without its blanks. *)
Fixpoint drop_blanks (s : string) : string :=
  match s with
  | EmptyString => EmptyString
  | String c s' =>
      if is_blank c then drop_blanks s' else String c (drop_blanks s')
  end.

(** The heading put before a rendered table (lines 93 and 96):
    [marker + ' Tabelle:\n']. *)
Definition heading : string :=
  (Chunker.marker ++ " Tabelle:" ++ Chunker.LF)%string.

Section Rendering.

(** The parser and the renderer of pandas: [pd.read_html(...)[0]], which
    raises when it finds no table, and [DataFrame.to_markdown(tablefmt =
    "jira", index = False)]. *)
Variable read_html : string -> option DataFrame.
Variable to_markdown : DataFrame -> string.
Variable max_rows_per_table : Z.

(** The loop of lines 90-93, from [table_text = '']. *)
Definition render_groups (table_dfs : list DataFrame) : string :=
  fold_left
    (fun table_text table_df =>
       (table_text ++ (Chunker.LF ++ heading ++ to_markdown table_df))%string)
    table_dfs ""%string.

(** [replace_table(match)] on the text [match.group(0)] of the match. *)
Definition replace_table (table_html : string) : option string :=
  match read_html table_html with
  | None => None
  | Some table_df =>
      if (df_len table_df >? max_rows_per_table)%Z
      then
        match split_table max_rows_per_table table_df with
        | None => None
        | Some table_dfs => Some (collapse_blanks (render_groups table_dfs))
        end
      else
        Some (collapse_blanks ("" ++ (heading ++ to_markdown table_df)))
  end.

End Rendering.

End Render.

(* ================================================================== *)
(** * module/collect_data.py: fetching, filtering and splitting pages *)
(* ================================================================== *)

Module Pages.
Import PyStr Chunker Context.

(** A page as the Confluence API returns it, as far as the module reads
    it: [page['id']], [page['title']] and
    [page['body']['storage']['value']]. *)
Record raw_page : Type := mkRawPage {
  id : string;
  raw_title : string;
  body : string
}.

(** The size of a batch (lines 148 and 156). *)
Definition limit : nat := 100.

Section Fetching.

(** [confluence.get_all_pages_from_space(space, start = start, limit =
    100, ...)] for the space at hand, as a function of [start]. *)
Variable get_all_pages_from_space : nat -> list raw_page.

(** The loop of [get_confluence_pages] (lines 152-167); [fuel] bounds
    the number of requests, and [None] says that the loop is still
    asking after [fuel] requests. *)
Fixpoint fetch_loop (fuel : nat) (start : nat) (pages : list raw_page)
  : option (list raw_page) :=
  match fuel with
  | O => None
  | S fuel' =>
      let results := get_all_pages_from_space start in
      let pages := (pages ++ results)%list in
      if (List.length results <? limit)%nat then Some pages
      else fetch_loop fuel' (start + limit) pages
  end.

Definition get_confluence_pages (fuel : nat) : option (list raw_page) :=
  fetch_loop fuel 0 [].

End Fetching.

(** A title is the sequence of its characters.  The class [\d] of a
    pattern on [str] is the decimal digits of Unicode, the ten digits of
    ASCII among them; the filter is written for the class, whatever
    characters it holds. *)
Definition is_dash (c : ascii) : bool := Ascii.eqb c "-"%char.

(** A pattern that is a sequence of character classes matches at the
    start of a text when the first characters of the text are in the
    classes, one by one. *)
Fixpoint match_classes (classes : list (ascii -> bool)) (s : string) : bool :=
  match classes with
  | [] => true
  | class :: classes' =>
      match s with
      | EmptyString => false
      | String c s' => class c && match_classes classes' s'
      end
  end.

Section Digits.

(** The characters that [\d] matches. *)
Variable digit : ascii -> bool.

(** [date_pattern = r'\d{4}-\d{2}-\d{2}'] (line 173). *)
Definition date_pattern : list (ascii -> bool) :=
  [digit; digit; digit; digit; is_dash;
   digit; digit; is_dash; digit; digit].

(** [re.match(date_pattern, title)] as a truth value. *)
Definition re_match_date (title : string) : bool :=
  match_classes date_pattern title.

(** The title begins with four characters of the class, a dash, two
    characters of the class, a dash and two characters of the class. *)
Definition has_date_prefix (title : string) : Prop :=
  exists y1 y2 y3 y4 m1 m2 d1 d2 rest,
    (digit y1 && digit y2 && digit y3 && digit y4
     && digit m1 && digit m2 && digit d1 && digit d2 = true)
    /\ title
       = String y1 (String y2 (String y3 (String y4 (String "-"
           (String m1 (String m2 (String "-"
              (String d1 (String d2 rest))))))))).

(** [filter_pages(pages)] (lines 171-185). *)
Definition filter_pages (pages : list raw_page) : list raw_page :=
  let condition1 page := (0 <? String.length (body page))%nat in
  let condition2 page := negb (re_match_date (raw_title page)) in
  filter (fun page => condition1 page && condition2 page) pages.

End Digits.

(** The ten digits of ASCII, which are in the class. *)
Definition ascii_digit (c : ascii) : bool :=
  ((48 <=? nat_of_ascii c) && (nat_of_ascii c <=? 57))%nat.

(** The limits of lines 21-23.  [1200 * 3.3] is [3960.0] and
    [3960.0 / 3] is [1320.0] in the floats of Python, and a length is
    compared with them as with the integers 3960 and 1320. *)
Definition max_tokens_per_page : Z := 1200.
Definition max_characters_per_page : Z := 3960.
Definition min_characters_per_page : Z := 1320.

(** [str(i)] for a natural number. *)
Definition str_of_nat (i : nat) : string :=
  NilEmpty.string_of_uint (Nat.to_uint i).

Section Tokens.

(** [get_num_tokens_from_string(_, tokenizer_encoding_name)]: the
    tokenizer of tiktoken. *)
Variable count_tokens : string -> Z.

(** The inner loop of [split_large_pages] (lines 208-219); [i] is the
    counter before the iteration. *)
Fixpoint page_parts (page : page) (i : nat) (content_list : list string)
  : list Context.page :=
  match content_list with
  | [] => []
  | content_part :: rest =>
      let i := S i in
      mkPage (space page)
             (title page ++ " - Teil " ++ str_of_nat i)
             content_part
             (link page)
             (count_tokens content_part)
        :: page_parts page i rest
  end.

(** What one pass of the outer loop appends to [split_pages]; [None]
    when [split_string_by_markers] raises. *)
Definition split_page (page : page) : option (list Context.page) :=
  if (num_tokens page >? max_tokens_per_page)%Z
  then
    match split_string_by_markers (page_content page) marker
            min_characters_per_page max_characters_per_page with
    | None => None
    | Some content_list => Some (page_parts page 0 content_list)
    end
  else Some [page].

(** The outer loop (lines 197-221). *)
Fixpoint split_loop (pages split_pages : list page) : option (list page) :=
  match pages with
  | [] => Some split_pages
  | page :: rest =>
      match split_page page with
      | None => None
      | Some new => split_loop rest (split_pages ++ new)%list
      end
  end.

(** [split_large_pages(pages)] (lines 187-223). *)
Definition split_large_pages (pages : list page) : option (list page) :=
  split_loop pages [].

End Tokens.

End Pages.

(* ================================================================== *)
(** * module/collect_data.py: from HTML to text *)
(* ================================================================== *)

Module Transform.
Import PyStr.

Definition newline : ascii := ascii_of_nat 10.

Definition is_newline (c : ascii) : bool := Ascii.eqb c newline.

(** [\s] on a character below 256, as the [re] module of Python has it
    for [str] patterns. *)
Definition is_space (c : ascii) : bool :=
  let n := nat_of_ascii c in
  (((9 <=? n) && (n <=? 13)) || ((28 <=? n) && (n <=? 32))
   || (n =? 133) || (n =? 160))%nat.

(** [needle in hay]. *)
Fixpoint contains (needle hay : string) : bool :=
  prefix needle hay
  || match hay with
     | EmptyString => false
     | String _ hay' => contains needle hay'
     end.

Definition open_tag : string := "<table>".
Definition close_tag : string := "</table>".

(** What [.*?</table>] matches at the start of [s] with [re.DOTALL]:
    the text up to and with the first [</table>], if there is one. *)
Fixpoint until_close (s : string) : option string :=
  if prefix close_tag s then Some close_tag
  else
    match s with
    | EmptyString => None
    | String c s' =>
        match until_close s' with
        | Some inner => Some (String c inner)
        | None => None
        end
    end.

Section Substitution.

(** [replace_table], called by [re.sub] on the text of every match;
    [None] when it raises. *)
Variable replace_table : string -> option string.

(** [re.sub(r'<table>.*?</table>', replace_table, text, flags =
    re.DOTALL)]: the text is read from left to right; where a match
    starts, the replacement is written and the scan resumes after the
    match ([skip] counts the characters of the match still to pass
    over). *)
Fixpoint sub_tables (skip : nat) (s : string) : option string :=
  match s with
  | EmptyString => Some EmptyString
  | String c s' =>
      match skip with
      | S k => sub_tables k s'
      | O =>
          let copy := option_map (String c) (sub_tables 0 s') in
          if prefix open_tag s
          then
            match until_close (drop (String.length open_tag) s) with
            | Some inner =>
                let matched := (open_tag ++ inner)%string in
                match replace_table matched,
                      sub_tables (String.length matched - 1) s' with
                | Some new, Some rest => Some (new ++ rest)%string
                | _, _ => None
                end
            | None => copy
            end
          else copy
      end
  end.

End Substitution.

(** [re.sub(r'^$\n', '', text, flags = re.MULTILINE)]: a line feed at
    the start of a line, that is at the start of the text or just after
    a line feed of the text, is removed. *)
Fixpoint remove_empty_lines (at_line_start : bool) (s : string) : string :=
  match s with
  | EmptyString => EmptyString
  | String c s' =>
      if is_newline c
      then if at_line_start
           then remove_empty_lines true s'
           else String c (remove_empty_lines true s')
      else String c (remove_empty_lines false s')
  end.

(** [re.sub(r'\n\s+', '\n\n', text, flags = re.MULTILINE)]: a line feed
    followed by whitespace is replaced, with all the whitespace that
    follows it, by two line feeds ([in_run] says that the scan is inside
    such a run). *)
Fixpoint squeeze (in_run : bool) (s : string) : string :=
  match s with
  | EmptyString => EmptyString
  | String c s' =>
      if in_run && is_space c then squeeze true s'
      else if is_newline c
      then
        match s' with
        | EmptyString => String c EmptyString
        | String d _ =>
            if is_space d
            then String newline (String newline (squeeze true s'))
            else String c (squeeze false s')
        end
      else String c (squeeze false s')
  end.

(** No line feed of [s] is followed by whitespace, except by one more
    line feed that is itself followed by none; [seen] line feeds stand
    just before [s]. *)
Fixpoint tidy (seen : nat) (s : string) : Prop :=
  match s with
  | EmptyString => True
  | String c s' =>
      if is_newline c then (seen < 2)%nat /\ tidy (S seen) s'
      else if is_space c then seen = 0%nat /\ tidy 0 s'
      else tidy 0 s'
  end.

Section Collaborators.

(** [replace_structured_macros] (BeautifulSoup), the [handle] of
    [html2text] with the options of lines 235-236, and
    [replace_table]. *)
Variable replace_structured_macros : string -> string.
Variable handle : string -> string.
Variable replace_table : string -> option string.

(** [transform_html_to_text(html)] (lines 225-250); [None] when
    [replace_table] raises on a table of the text. *)
Definition transform_html_to_text (html : string) : option string :=
  let html :=
    if contains "<ac:structured-macro" html
    then replace_structured_macros html
    else html in
  let text := handle html in
  match sub_tables replace_table 0 text with
  | None => None
  | Some text =>
      let text := remove_empty_lines true text in
      let text := squeeze false text in
      Some text
  end.

End Collaborators.

End Transform.

(* ================================================================== *)
(** * Facts about the string operations *)
(* ================================================================== *)

Module PyStrFacts.
Import PyStr.

Lemma length_append (s1 s2 : string) :
  String.length (s1 ++ s2) = String.length s1 + String.length s2.
Proof. induction s1 as [|c s1 IH]; simpl; [reflexivity | now rewrite IH]. Qed.

Lemma append_empty_r (s : string) : s ++ "" = s.
Proof. induction s as [|c s IH]; simpl; [reflexivity | now rewrite IH]. Qed.

Lemma append_assoc (s1 s2 s3 : string) : (s1 ++ s2) ++ s3 = s1 ++ (s2 ++ s3).
Proof. induction s1 as [|c s1 IH]; simpl; [reflexivity | now rewrite IH]. Qed.

Lemma length_zero_empty (s : string) : String.length s = 0 -> s = "".
Proof. destruct s; simpl; [reflexivity | discriminate]. Qed.

Lemma len_append (s1 s2 : string) : len (s1 ++ s2) = (len s1 + len s2)%Z.
Proof. unfold len. rewrite length_append. lia. Qed.

Lemma len_nonneg (s : string) : (0 <= len s)%Z.
Proof. unfold len. lia. Qed.

Lemma len_empty : len "" = 0%Z.
Proof. reflexivity. Qed.

Lemma eqb_empty_false (s : string) :
  (s =? "")%string = false -> 0 < String.length s.
Proof.
  destruct s; simpl; intros H; [discriminate | lia].
Qed.

Lemma take_zero (s : string) : take 0 s = "".
Proof. destruct s; reflexivity. Qed.

Lemma take_String (n : nat) (c : ascii) (s : string) :
  take (S n) (String c s) = String c (take n s).
Proof. reflexivity. Qed.

Lemma take_app_length (a b : string) : take (String.length a) (a ++ b) = a.
Proof.
  induction a as [|c a IH]; simpl.
  - apply take_zero.
  - rewrite take_String. now rewrite IH.
Qed.

Lemma take_length (n : nat) (s : string) :
  String.length (take n s) = Nat.min n (String.length s).
Proof.
  revert n. induction s as [|c s IH]; intros [|n]; simpl; try reflexivity.
  unfold take in IH. now rewrite IH.
Qed.

Lemma drop_zero (s : string) : drop 0 s = s.
Proof.
  unfold drop. rewrite Nat.sub_0_r.
  induction s as [|c s IH]; simpl; [reflexivity | now rewrite IH].
Qed.

Lemma drop_String (n : nat) (c : ascii) (s : string) :
  drop (S n) (String c s) = drop n s.
Proof. reflexivity. Qed.

Lemma take_drop (n : nat) (s : string) : take n s ++ drop n s = s.
Proof.
  revert n. induction s as [|c s IH]; intros [|n]; try reflexivity.
  - rewrite take_zero, drop_zero. reflexivity.
  - rewrite take_String, drop_String. simpl. now rewrite IH.
Qed.

Lemma drop_length (n : nat) (s : string) :
  String.length (drop n s) = String.length s - n.
Proof.
  pose proof (take_drop n s) as H.
  apply (f_equal String.length) in H.
  rewrite length_append, take_length in H. lia.
Qed.

(** [s[:-3]] is [s] without its last three characters, or without all
    of them when there are fewer. *)
Lemma strip3_tail (s : string) :
  exists tail,
    s = strip3 s ++ tail /\ String.length tail = Nat.min 3 (String.length s).
Proof.
  exists (drop (String.length s - 3) s). split.
  - unfold strip3. now rewrite take_drop.
  - rewrite drop_length. lia.
Qed.

Lemma strip3_length (s : string) :
  String.length (strip3 s) = String.length s - 3.
Proof. unfold strip3. rewrite take_length. lia. Qed.

Lemma strip3_len_le (s : string) : (len (strip3 s) <= len s)%Z.
Proof. unfold len. rewrite strip3_length. lia. Qed.

(** When [s[:-3]] undoes the appending of a marker. *)
Lemma strip3_app (body marker : string) :
  strip3 (body ++ marker) = body <->
  String.length marker = 3 \/ (body = "" /\ String.length marker < 3).
Proof.
  split.
  - intros H. apply (f_equal String.length) in H.
    rewrite strip3_length, length_append in H.
    destruct (Nat.eq_dec (String.length marker) 3) as [E|E]; [now left|].
    right. assert (String.length body = 0) as B by lia.
    split; [now apply length_zero_empty | lia].
  - intros [E | [B E]].
    + unfold strip3. rewrite length_append, E.
      replace (String.length body + 3 - 3) with (String.length body) by lia.
      apply take_app_length.
    + subst body. unfold strip3. simpl.
      replace (String.length marker - 3) with 0 by lia. apply take_zero.
Qed.

Lemma append_cancel_r (a b m : string) : a ++ m = b ++ m -> a = b.
Proof.
  intros H.
  assert (String.length a = String.length b) as L.
  { apply (f_equal String.length) in H. rewrite !length_append in H. lia. }
  rewrite <- (take_app_length a m), H, L. apply take_app_length.
Qed.

Lemma flatten_app (l1 l2 : list string) :
  flatten (l1 ++ l2) = flatten l1 ++ flatten l2.
Proof.
  induction l1 as [|x l1 IH]; cbn [flatten fold_right app].
  - reflexivity.
  - fold (flatten (l1 ++ l2)). fold (flatten l1).
    rewrite IH. now rewrite append_assoc.
Qed.

Lemma prefix_app (sep s : string) :
  prefix sep s = true -> s = sep ++ drop (String.length sep) s.
Proof.
  intros H. apply prefix_correct in H.
  rewrite <- (take_drop (String.length sep) s) at 1.
  unfold take. now rewrite H.
Qed.

Lemma prefix_append (sep s : string) : prefix sep (sep ++ s) = true.
Proof.
  apply prefix_correct. apply (take_app_length sep s).
Qed.

Lemma split_scan_nonempty (sep : string) (s : string) :
  forall skip seg, split_scan sep skip seg s <> [].
Proof.
  induction s as [|c s IH]; intros skip seg; cbn [split_scan].
  - discriminate.
  - destruct skip as [|k]; [|apply IH].
    destruct (prefix sep (String c s)); [discriminate | apply IH].
Qed.

Lemma join_cons (sep x : string) (xs : list string) :
  xs <> [] -> join sep (x :: xs) = x ++ sep ++ join sep xs.
Proof. destruct xs; [congruence | reflexivity]. Qed.

(** Joining with a separator, and closing every part with it. *)
Lemma join_closed (sep : string) (parts : list string) :
  parts <> [] ->
  join sep parts ++ sep = flatten (map (fun part => part ++ sep) parts).
Proof.
  induction parts as [|x xs IH]; [congruence|]. intros _.
  destruct xs as [|y ys].
  - cbn. now rewrite append_empty_r.
  - rewrite join_cons by discriminate.
    change (flatten (map (fun part => part ++ sep) (x :: y :: ys)))
      with ((x ++ sep)
              ++ flatten (map (fun part => part ++ sep) (y :: ys))).
    rewrite <- IH by discriminate. now rewrite !append_assoc.
Qed.

(** Joining what the scan produced gives back what it read. *)
Lemma split_scan_join (sep : string) :
  sep <> "" ->
  forall s skip seg,
    skip <= String.length s ->
    join sep (split_scan sep skip seg s) = seg ++ drop skip s.
Proof.
  intros Hsep. induction s as [|c s IH]; intros skip seg Hk;
    cbn [split_scan String.length] in *.
  - assert (skip = 0) by lia. subst. simpl. now rewrite append_empty_r.
  - destruct skip as [|k].
    + rewrite drop_zero.
      destruct (prefix sep (String c s)) eqn:P.
      * rewrite join_cons by apply split_scan_nonempty.
        destruct sep as [|d sep']; [congruence|].
        cbn [prefix] in P.
        destruct (ascii_dec d c) as [Hdc|Hdc]; [subst d | discriminate].
        pose proof (prefix_app _ _ P) as E.
        assert (String.length sep' <= String.length s) as L.
        { apply (f_equal String.length) in E.
          rewrite length_append in E. lia. }
        replace (String.length (String c sep') - 1)
          with (String.length sep') by (cbn [String.length]; lia).
        rewrite IH by exact L. simpl. now rewrite <- E.
      * rewrite IH by lia. rewrite drop_zero, append_assoc. reflexivity.
    + rewrite drop_String. apply IH. lia.
Qed.

(** [marker.join(text.split(marker)) == text]. *)
Lemma split_join (sep s : string) (splits : list string) :
  split sep s = Some splits -> join sep splits = s.
Proof.
  unfold split. destruct (sep =? "")%string eqn:E; [discriminate|].
  intros H. injection H as <-.
  apply String.eqb_neq in E.
  rewrite (split_scan_join sep E s 0 "") by lia.
  now rewrite drop_zero.
Qed.

Lemma split_some (sep s : string) :
  sep <> "" -> exists splits, split sep s = Some splits /\ splits <> [].
Proof.
  intros H. apply String.eqb_neq in H. unfold split. rewrite H.
  eexists. split; [reflexivity | apply split_scan_nonempty].
Qed.

Lemma split_none (sep s : string) : split sep s = None <-> sep = "".
Proof.
  unfold split. destruct (sep =? "")%string eqn:E.
  - apply String.eqb_eq in E. tauto.
  - apply String.eqb_neq in E. split; [discriminate | tauto].
Qed.

End PyStrFacts.

(* ================================================================== *)
(** * The page chunker *)
(* ================================================================== *)

Module ChunkerFacts.
Import PyStr PyStrFacts Chunker.

Section Loop.

Variable marker : string.
Variables min_part_size max_part_size : Z.

Local Abbreviation loop_body :=
  (loop_body marker min_part_size max_part_size).
Local Abbreviation traced_body :=
  (traced_body marker min_part_size max_part_size).
Local Abbreviation part_of := (part_of marker).
Local Abbreviation recorded :=
  (recorded marker min_part_size max_part_size).
Local Abbreviation built := (built marker max_part_size).
Local Abbreviation erases := (erases marker).
Local Abbreviation sound := (sound marker min_part_size max_part_size).

Lemma traced_body_erases (t : traced) (st : state) (split : string) :
  erases t st -> erases (traced_body t split) (loop_body st split).
Proof.
  intros [R C]. unfold erases, traced_body, loop_body. rewrite <- C.
  destruct (_ <=? _)%Z; [|destruct (_ >=? _)%Z]; cbn [emitted current
    result current_part]; rewrite ?map_app, ?R; cbn [map]; rewrite ?C;
    split; reflexivity.
Qed.

Lemma fold_erases (splits : list string) :
  forall t st,
    erases t st ->
    erases (fold_left traced_body splits t) (fold_left loop_body splits st).
Proof.
  induction splits as [|x xs IH]; intros t st H; cbn [fold_left].
  - exact H.
  - apply IH. now apply traced_body_erases.
Qed.

Lemma finish_erases (t : traced) (st : state) :
  erases t st -> finish st = map part_of (traced_finish t).
Proof.
  intros [R C]. unfold finish, traced_finish. rewrite C.
  destruct (current t =? "")%string; [exact R|].
  rewrite map_app, R. cbn [map]. unfold Chunker.part_of.
  cbn [accumulated]. reflexivity.
Qed.

Lemma built_empty : built "".
Proof. now left. Qed.

Lemma traced_body_sound (t : traced) (split : string) :
  sound t -> sound (traced_body t split).
Proof.
  intros [E B]. unfold sound, traced_body.
  destruct (_ <=? _)%Z eqn:T; [|destruct (_ >=? _)%Z eqn:M];
    cbn [emitted current].
  - split; [exact E|]. right. split.
    + exists (current t ++ split). now rewrite append_assoc.
    + apply Z.leb_le in T. rewrite !len_append. lia.
  - split; [|apply built_empty].
    apply Forall_app. split; [exact E|]. constructor; [|constructor].
    cbn [Chunker.recorded]. unfold overflows.
    apply Z.leb_gt in T. apply Z.geb_le in M. repeat split; try lia.
    exact B.
  - split; [|apply built_empty].
    apply Forall_app. split; [exact E|]. constructor; [|constructor].
    cbn [Chunker.recorded]. unfold overflows.
    apply Z.leb_gt in T.
    assert (len (current t) < min_part_size)%Z as M'.
    { rewrite Z.geb_leb in M. apply Z.leb_gt in M. exact M. }
    repeat split; try lia. exact B.
Qed.

Lemma fold_sound (splits : list string) :
  forall t, sound t -> sound (fold_left traced_body splits t).
Proof.
  induction splits as [|x xs IH]; intros t H; cbn [fold_left].
  - exact H.
  - apply IH. now apply traced_body_sound.
Qed.

Lemma finish_sound (t : traced) :
  sound t -> Forall recorded (traced_finish t).
Proof.
  intros [E B]. unfold traced_finish.
  destruct (current t =? "")%string eqn:C; [exact E|].
  apply Forall_app. split; [exact E|]. constructor; [|constructor].
  cbn [Chunker.recorded]. split; [|exact B].
  now apply String.eqb_neq.
Qed.

(** A flush leaves no trace of the segment at hand: the state after it
    is the same whatever that segment was. *)
Lemma flush_drops_segment (st : state) (split : string) :
  overflows marker max_part_size (current_part st) split ->
  (min_part_size <= len (current_part st))%Z ->
  loop_body st split
  = mkState (result st ++ [strip3 (current_part st)])%list "".
Proof.
  unfold overflows, Chunker.loop_body. intros O M.
  destruct (_ <=? _)%Z eqn:T; [apply Z.leb_le in T; lia|].
  destruct (_ >=? _)%Z eqn:G; [reflexivity|].
  rewrite Z.geb_leb in G. apply Z.leb_gt in G. lia.
Qed.

(** The forced append: the segment is appended and the whole is
    flushed at once. *)
Lemma forced_append_step (st : state) (split : string) :
  overflows marker max_part_size (current_part st) split ->
  (len (current_part st) < min_part_size)%Z ->
  loop_body st split
  = mkState
      (result st ++ [strip3 (current_part st ++ (split ++ marker))])%list
      "".
Proof.
  unfold overflows, Chunker.loop_body. intros O M.
  destruct (_ <=? _)%Z eqn:T; [apply Z.leb_le in T; lia|].
  destruct (_ >=? _)%Z eqn:G; [|reflexivity].
  apply Z.geb_le in G. lia.
Qed.

End Loop.

(** The parts returned by the source function are the parts of the
    recorded emissions, in order. *)
Lemma split_trace_parts
    (input marker : string) (min_part_size max_part_size : Z) :
  split_string_by_markers input marker min_part_size max_part_size
  = option_map (map (part_of marker))
               (split_trace input marker min_part_size max_part_size).
Proof.
  unfold split_string_by_markers, split_trace.
  destruct (split marker input) as [splits|]; [|reflexivity].
  cbn [option_map]. f_equal. apply finish_erases.
  apply fold_erases. split; reflexivity.
Qed.

Lemma split_trace_recorded
    (input marker : string) (min_part_size max_part_size : Z)
    (es : list emission) :
  split_trace input marker min_part_size max_part_size = Some es ->
  Forall (recorded marker min_part_size max_part_size) es.
Proof.
  unfold split_trace.
  destruct (split marker input) as [splits|]; [|discriminate].
  intros H. injection H as <-.
  apply finish_sound. apply fold_sound.
  split; [constructor | apply built_empty].
Qed.

(** A recorded emission other than a forced append slices an
    accumulator that passed the test of line 112, or the empty one. *)
Lemma unforced_part_len
    (marker : string) (min_part_size max_part_size : Z) (e : emission) :
  (0 <= max_part_size \/ 0 < min_part_size)%Z ->
  recorded marker min_part_size max_part_size e ->
  is_forced e = false ->
  (len (part_of marker e) <= max_part_size)%Z.
Proof.
  intros Hcfg Hrec Hforced. unfold part_of.
  pose proof (strip3_len_le (accumulated marker e)) as Hle.
  destruct e as [acc split | acc split | acc]; cbn in *.
  - destruct Hrec as (_ & Hmin & [-> | [_ Hmax]]); [|lia].
    change (len "") with 0%Z in *. lia.
  - discriminate.
  - destruct Hrec as (Hne & [-> | [_ Hmax]]); [congruence | lia].
Qed.

(** The call returns a list for every non-empty marker, and raises for
    the empty one. *)
Lemma split_trace_total
    (input marker : string) (min_part_size max_part_size : Z) :
  marker <> "" ->
  exists es, split_trace input marker min_part_size max_part_size = Some es.
Proof.
  intros H. unfold split_trace.
  destruct (split_some marker input H) as [splits [-> _]]. eauto.
Qed.

(** Emissions are only ever added at the end. *)
Lemma emitted_grows
    (marker : string) (min_part_size max_part_size : Z)
    (splits : list string) :
  forall t e,
    In e (emitted t) ->
    In e (emitted
            (fold_left (traced_body marker min_part_size max_part_size)
                       splits t)).
Proof.
  induction splits as [|x xs IH]; intros t e H; cbn [fold_left].
  - exact H.
  - apply IH. unfold traced_body.
    destruct (_ <=? _)%Z; [|destruct (_ >=? _)%Z]; cbn [emitted];
      try exact H; apply in_or_app; now left.
Qed.

(** As long as no flush of line 117 happens, every segment read is kept,
    closed by the marker. *)
Lemma text_of_fold
    (marker : string) (min_part_size max_part_size : Z)
    (splits : list string) :
  forall t,
    (forall e,
       In e (emitted
               (fold_left (traced_body marker min_part_size max_part_size)
                          splits t)) ->
       is_flush e = false) ->
    text_of marker
      (fold_left (traced_body marker min_part_size max_part_size) splits t)
    = text_of marker t
        ++ flatten (map (fun split => split ++ marker) splits).
Proof.
  induction splits as [|x xs IH]; intros t H; cbn [fold_left] in *.
  - cbn. now rewrite append_empty_r.
  - rewrite (IH _ H).
    change (flatten (map (fun split => split ++ marker) (x :: xs)))
      with ((x ++ marker)
              ++ flatten (map (fun split => split ++ marker) xs)).
    rewrite <- append_assoc. f_equal.
    assert (forall e,
              In e (emitted
                      (traced_body marker min_part_size max_part_size t x)) ->
              is_flush e = false) as H'.
    { intros e He. apply H. now apply emitted_grows. }
    revert H'. unfold text_of, traced_body.
    destruct (_ <=? _)%Z; [|destruct (_ >=? _)%Z]; cbn [emitted current];
      intros H'.
    + now rewrite append_assoc.
    + specialize (H' (Flush (current t) x)).
      rewrite in_app_iff in H'. cbn in H'.
      discriminate H'. right. now left.
    + rewrite map_app, flatten_app. cbn [map flatten fold_right accumulated].
      now rewrite !append_empty_r, append_assoc.
Qed.

Lemma text_of_finish (marker : string) (t : traced) :
  flatten (map (accumulated marker) (traced_finish t)) = text_of marker t.
Proof.
  unfold traced_finish, text_of. destruct (current t =? "")%string eqn:E.
  - apply String.eqb_eq in E. rewrite E. now rewrite append_empty_r.
  - rewrite map_app, flatten_app. cbn. now rewrite append_empty_r.
Qed.

(** With a marker of three characters, what [[:-3]] removes from a
    forced append or at the final flush is the marker. *)
Lemma accumulated_closed
    (marker : string) (min_part_size max_part_size : Z) (e : emission) :
  String.length marker = 3 ->
  recorded marker min_part_size max_part_size e ->
  is_flush e = false ->
  accumulated marker e = part_of marker e ++ marker.
Proof.
  intros H3 Hrec Hf. unfold part_of.
  assert (exists body, accumulated marker e = body ++ marker) as [body Hb].
  { destruct e as [acc split | acc split | acc]; cbn in *.
    - discriminate.
    - exists (acc ++ split). now rewrite append_assoc.
    - destruct Hrec as (Hne & [-> | [Hb _]]); [congruence | exact Hb]. }
  rewrite Hb. f_equal. symmetry. apply strip3_app. now left.
Qed.

(** The round trip of the specification holds of every call in which
    line 117 is not reached, for a marker of three characters: the
    parts joined by the marker are the input. *)
Lemma roundtrip_without_flush
    (input marker : string) (min_part_size max_part_size : Z)
    (es : list emission) :
  String.length marker = 3 ->
  split_trace input marker min_part_size max_part_size = Some es ->
  (forall e, In e es -> is_flush e = false) ->
  split_string_by_markers input marker min_part_size max_part_size
  = Some (map (part_of marker) es)
  /\ join marker (map (part_of marker) es) = input.
Proof.
  intros H3 Htrace Hnf.
  split; [rewrite split_trace_parts, Htrace; reflexivity|].
  pose proof (split_trace_recorded _ _ _ _ _ Htrace) as Hrec.
  rewrite Forall_forall in Hrec.
  unfold split_trace in Htrace.
  destruct (split marker input) as [splits|] eqn:Hs; [|discriminate].
  injection Htrace as Hes.
  assert (marker <> "") as Hm by (intros ->; discriminate).
  assert (splits <> []) as Hne.
  { destruct (split_some marker input Hm) as [splits' [E N]].
    rewrite Hs in E. injection E as <-. exact N. }
  assert (flatten (map (accumulated marker) es) = input ++ marker) as Hflat.
  { rewrite <- Hes, text_of_finish.
    unfold traced_loop. rewrite text_of_fold.
    - cbn [text_of emitted current map flatten fold_right append].
      rewrite <- join_closed by exact Hne.
      now rewrite (split_join _ _ _ Hs).
    - intros e He. apply Hnf. rewrite <- Hes. unfold traced_finish.
      fold (traced_loop marker min_part_size max_part_size splits) in *.
      destruct (_ =? _)%string; [exact He | apply in_or_app; now left]. }
  assert (map (accumulated marker) es
          = map (fun part => part ++ marker) (map (part_of marker) es)) as Hmap.
  { rewrite map_map. apply map_ext_in. intros e He.
    apply (accumulated_closed marker min_part_size max_part_size);
      [exact H3 | now apply Hrec | now apply Hnf]. }
  rewrite Hmap in Hflat.
  assert (map (part_of marker) es <> []) as Hparts.
  { intros E. rewrite E in Hflat. cbn in Hflat.
    apply (f_equal String.length) in Hflat.
    rewrite length_append, H3 in Hflat. cbn in Hflat. lia. }
  rewrite <- join_closed in Hflat by exact Hparts.
  now apply append_cancel_r in Hflat.
Qed.

End ChunkerFacts.

(* ================================================================== *)
(** * The page chunker: the properties of the specification *)
(* ================================================================== *)

Module ChunkerSpec.
Import PyStr PyStrFacts Chunker ChunkerFacts.

(** C1 (defect of the code).  Joining the returned parts with the marker
    does not give back the input: in the scenario of the specification
    (marker ['\n##'], minimum 10, maximum 30) the segment of 25 letters
    that triggers the flush of ["a\n##b\n##c"] is in no part, and the
    rejoined text is 28 characters shorter than the input. *)
Theorem roundtrip_loses_flushed_segment :
  let text :=
    "a" ++ marker ++ "b" ++ marker ++ "c" ++ marker
        ++ "ddddddddddddddddddddddddd" ++ marker ++ "e" in
  split marker text = Some ["a"; "b"; "c"; "ddddddddddddddddddddddddd"; "e"]
  /\ split_string_by_markers text marker 10 30
     = Some ["a" ++ marker ++ "b" ++ marker ++ "c"; "e"]
  /\ split_trace text marker 10 30
     = Some [Flush ("a" ++ marker ++ "b" ++ marker ++ "c" ++ marker)
                   "ddddddddddddddddddddddddd";
             FinalFlush ("e" ++ marker)]
  /\ join marker ["a" ++ marker ++ "b" ++ marker ++ "c"; "e"] <> text
  /\ String.length (join marker ["a" ++ marker ++ "b" ++ marker ++ "c"; "e"])
     + 28 = String.length text.
Proof.
  cbv zeta. repeat split; try reflexivity.
  intros H. apply (f_equal String.length) in H. vm_compute in H.
  discriminate.
Qed.

(** C2 (defect of the code).  The segment that triggers a flush is not
    the start of the next part: after the flush the accumulator is empty
    and the loop goes on with the segment after it.  Here ["beta"]
    triggers the flush of ["alpha"] and is in no part; the next part is
    ["gamma"]. *)
Theorem flush_loses_triggering_segment :
  let text := "alpha" ++ marker ++ "beta" ++ marker ++ "gamma" in
  split marker text = Some ["alpha"; "beta"; "gamma"]
  /\ run_loop marker 3 12 ["alpha"; "beta"]
     = mkState ["alpha"] ""
  /\ split_trace text marker 3 12
     = Some [Flush ("alpha" ++ marker) "beta"; FinalFlush ("gamma" ++ marker)]
  /\ split_string_by_markers text marker 3 12 = Some ["alpha"; "gamma"].
Proof. cbv zeta. repeat split; reflexivity. Qed.

(** Apart from the flush of line 117, the slice [[:-3]] assumes a marker
    of three characters: with the marker ["#"] the only part loses two
    characters of the text with the marker. *)
Example short_marker_cuts_into_text :
  split_string_by_markers "ab#cd" "#" 0 100 = Some ["ab#"]
  /\ split_trace "ab#cd" "#" 0 100 = Some [FinalFlush "ab#cd#"].
Proof. split; reflexivity. Qed.

(** A forced append: the accumulator ["ab\n##"] is below the minimum of
    10 when the segment of 14 letters comes; both are returned as one
    part of 19 characters, above the maximum of 12. *)
Example forced_append_exceeds_max :
  split_string_by_markers ("ab" ++ marker ++ "cdefghijklmnop") marker 10 12
  = Some ["ab" ++ marker ++ "cdefghijklmnop"].
Proof. reflexivity. Qed.

(** C3, the statement of the specification fails: with a negative
    maximum and a minimum of 0 the flush branch returns the empty
    accumulator, a part of length 0 above the maximum that the forced
    append did not produce. *)
Lemma nonforced_part_above_negative_max :
  split_trace "a" marker 0 (-1) = Some [Flush "" "a"]
  /\ split_string_by_markers "a" marker 0 (-1) = Some [""]
  /\ is_forced (Flush "" "a") = false
  /\ ~ (len (part_of marker (Flush "" "a")) <= -1)%Z.
Proof. repeat split; try reflexivity. vm_compute. intros H. now apply H. Qed.

(** C3 (amended).  When the maximum is not negative (or the minimum is
    positive), every returned part that the forced append did not
    produce has at most [max_part_size] characters. *)
Theorem nonforced_parts_within_max
    (input marker : string) (min_part_size max_part_size : Z)
    (es : list emission) :
  (0 <= max_part_size \/ 0 < min_part_size)%Z ->
  split_trace input marker min_part_size max_part_size = Some es ->
  split_string_by_markers input marker min_part_size max_part_size
  = Some (map (part_of marker) es)
  /\ forall e,
       In e es -> is_forced e = false ->
       (len (part_of marker e) <= max_part_size)%Z.
Proof.
  intros Hcfg Htrace. split.
  - rewrite split_trace_parts, Htrace. reflexivity.
  - intros e Hin Hforced.
    pose proof (split_trace_recorded _ _ _ _ _ Htrace) as Hrec.
    rewrite Forall_forall in Hrec.
    apply (unforced_part_len marker min_part_size max_part_size);
      [exact Hcfg | now apply Hrec | exact Hforced].
Qed.

Lemma nonforced_parts_within_max_witness :
  split_string_by_markers
    ("alpha" ++ marker ++ "beta" ++ marker ++ "gamma") marker 3 12
  = Some (map (part_of marker)
            [Flush ("alpha" ++ marker) "beta"; FinalFlush ("gamma" ++ marker)])
  /\ forall e,
       In e [Flush ("alpha" ++ marker) "beta"; FinalFlush ("gamma" ++ marker)] ->
       is_forced e = false ->
       (len (part_of marker e) <= 12)%Z.
Proof.
  apply (nonforced_parts_within_max
           ("alpha" ++ marker ++ "beta" ++ marker ++ "gamma") marker 3 12).
  - left. lia.
  - reflexivity.
Defined.

(** C4, the statement of the specification fails: with a maximum of -2
    and a minimum of -5 both parts are above the maximum, and both come
    from the flush branch, not from the forced append. *)
Lemma oversized_parts_without_forced_append :
  split_trace ("x" ++ marker ++ "y") marker (-5) (-2)
  = Some [Flush "" "x"; Flush "" "y"]
  /\ split_string_by_markers ("x" ++ marker ++ "y") marker (-5) (-2)
     = Some [""; ""]
  /\ (len (part_of marker (Flush "" "x")) > -2)%Z
  /\ is_forced (Flush "" "x") = false.
Proof. repeat split; reflexivity. Qed.

(** C4 (amended).  When appending a segment would exceed the maximum
    and the accumulator is below the minimum, the segment is appended
    all the same and the whole is flushed at once; when the maximum is
    not negative (or the minimum is positive), a returned part above the
    maximum was produced this way, and a part produced this way started
    from an accumulator below the minimum. *)
Theorem forced_append_only_source_of_oversize
    (input marker : string) (min_part_size max_part_size : Z)
    (es : list emission) :
  (0 <= max_part_size \/ 0 < min_part_size)%Z ->
  split_trace input marker min_part_size max_part_size = Some es ->
  split_string_by_markers input marker min_part_size max_part_size
  = Some (map (part_of marker) es)
  /\ (forall st split,
        overflows marker max_part_size (current_part st) split ->
        (len (current_part st) < min_part_size)%Z ->
        loop_body marker min_part_size max_part_size st split
        = mkState
            (result st
               ++ [strip3 (current_part st ++ (split ++ marker))])%list
            "")
  /\ (forall e,
        In e es -> (len (part_of marker e) > max_part_size)%Z ->
        is_forced e = true)
  /\ (forall acc split,
        In (ForcedAppend acc split) es ->
        overflows marker max_part_size acc split
        /\ (len acc < min_part_size)%Z
        /\ part_of marker (ForcedAppend acc split)
           = strip3 (acc ++ (split ++ marker))).
Proof.
  intros Hcfg Htrace.
  pose proof (split_trace_recorded _ _ _ _ _ Htrace) as Hrec.
  rewrite Forall_forall in Hrec.
  split; [rewrite split_trace_parts, Htrace; reflexivity|].
  split; [|split].
  - intros st split. apply forced_append_step.
  - intros e Hin Hgt. destruct (is_forced e) eqn:F; [reflexivity|].
    pose proof (unforced_part_len marker min_part_size max_part_size e
                  Hcfg (Hrec e Hin) F).
    lia.
  - intros acc split Hin. specialize (Hrec _ Hin).
    cbn in Hrec. destruct Hrec as (Ho & Hm & _).
    repeat split; assumption.
Qed.

Lemma forced_append_only_source_of_oversize_witness :
  let input := "ab" ++ marker ++ "cdefghijklmnop" in
  let es := [ForcedAppend ("ab" ++ marker) "cdefghijklmnop"] in
  split_string_by_markers input marker 10 12
  = Some (map (part_of marker) es)
  /\ (forall st split,
        overflows marker 12 (current_part st) split ->
        (len (current_part st) < 10)%Z ->
        loop_body marker 10 12 st split
        = mkState
            (result st
               ++ [strip3 (current_part st ++ (split ++ marker))])%list
            "")
  /\ (forall e,
        In e es -> (len (part_of marker e) > 12)%Z -> is_forced e = true)
  /\ (forall acc split,
        In (ForcedAppend acc split) es ->
        overflows marker 12 acc split
        /\ (len acc < 10)%Z
        /\ part_of marker (ForcedAppend acc split)
           = strip3 (acc ++ (split ++ marker))).
Proof.
  apply (forced_append_only_source_of_oversize
           ("ab" ++ marker ++ "cdefghijklmnop") marker 10 12).
  - left. lia.
  - reflexivity.
Defined.

(** C10, the statement of the specification fails: with the marker
    ["#"] and the empty text the accumulator at the final flush is
    ["#"]; the flush removes its only character, not three, and what is
    left is the accumulator without its trailing marker although the
    marker is one character long. *)
Lemma flush_of_short_accumulator :
  split_trace "" "#" 0 5 = Some [FinalFlush "#"]
  /\ split_string_by_markers "" "#" 0 5 = Some [""]
  /\ accumulated "#" (FinalFlush "#") = "" ++ "#"
  /\ part_of "#" (FinalFlush "#") = ""
  /\ String.length "#" <> 3
  /\ ~ (exists tail,
          accumulated "#" (FinalFlush "#")
          = part_of "#" (FinalFlush "#") ++ tail
          /\ String.length tail = 3).
Proof.
  repeat split; try reflexivity; try discriminate.
  intros [tail [E L]]. cbn in E. subst tail. discriminate.
Qed.

(** C10 (amended).  Whatever the marker, a flushed part is the
    accumulated string without its last three characters, or the empty
    string when it has fewer than three; the accumulated string is
    empty or ends with the marker, and the part is the accumulated
    string without that trailing marker exactly when the marker has
    three characters, or has fewer and is all there is in the
    accumulator. *)
Theorem flush_strips_three_characters
    (input marker : string) (min_part_size max_part_size : Z)
    (es : list emission) (e : emission) :
  split_trace input marker min_part_size max_part_size = Some es ->
  In e es ->
  split_string_by_markers input marker min_part_size max_part_size
  = Some (map (part_of marker) es)
  /\ part_of marker e = strip3 (accumulated marker e)
  /\ (exists tail,
        accumulated marker e = part_of marker e ++ tail
        /\ String.length tail
           = Nat.min 3 (String.length (accumulated marker e)))
  /\ (accumulated marker e = ""
      \/ exists body, accumulated marker e = body ++ marker)
  /\ (forall body,
        accumulated marker e = body ++ marker ->
        (part_of marker e = body <->
         String.length marker = 3
         \/ (body = "" /\ String.length marker < 3))).
Proof.
  intros Htrace Hin.
  split; [rewrite split_trace_parts, Htrace; reflexivity|].
  split; [reflexivity|]. split; [apply strip3_tail|]. split.
  - pose proof (split_trace_recorded _ _ _ _ _ Htrace) as Hrec.
    rewrite Forall_forall in Hrec. specialize (Hrec e Hin).
    destruct e as [acc split | acc split | acc]; cbn in *.
    + destruct Hrec as (_ & _ & [-> | [Hb _]]); [now left | now right].
    + right. exists (acc ++ split). now rewrite append_assoc.
    + destruct Hrec as (_ & [-> | [Hb _]]); [now left | now right].
  - intros body Hacc. unfold part_of. rewrite Hacc. apply strip3_app.
Qed.

Lemma flush_strips_three_characters_witness :
  let input := "alpha" ++ marker ++ "beta" ++ marker ++ "gamma" in
  let es :=
    [Flush ("alpha" ++ marker) "beta"; FinalFlush ("gamma" ++ marker)] in
  let e := FinalFlush ("gamma" ++ marker) in
  split_string_by_markers input marker 3 12
  = Some (map (part_of marker) es)
  /\ part_of marker e = strip3 (accumulated marker e)
  /\ (exists tail,
        accumulated marker e = part_of marker e ++ tail
        /\ String.length tail
           = Nat.min 3 (String.length (accumulated marker e)))
  /\ (accumulated marker e = ""
      \/ exists body, accumulated marker e = body ++ marker)
  /\ (forall body,
        accumulated marker e = body ++ marker ->
        (part_of marker e = body <->
         String.length marker = 3
         \/ (body = "" /\ String.length marker < 3))).
Proof.
  apply (flush_strips_three_characters
           ("alpha" ++ marker ++ "beta" ++ marker ++ "gamma") marker 3 12).
  - reflexivity.
  - right. left. reflexivity.
Defined.

End ChunkerSpec.

(* ================================================================== *)
(** * The table splitter *)
(* ================================================================== *)

Module TablesFacts.
Import Tables.

Local Open Scope Z_scope.

(** [ceil_div a b] is the least [k] with [a <= k * b]. *)
Lemma ceil_div_bounds (a b : Z) :
  0 < b -> (ceil_div a b - 1) * b < a <= ceil_div a b * b.
Proof.
  intros Hb. unfold ceil_div.
  pose proof (Z.div_mod (a + b - 1) b ltac:(lia)) as E.
  pose proof (Z.mod_pos_bound (a + b - 1) b Hb) as M.
  nia.
Qed.

Lemma ceil_div_zero (b : Z) : 0 < b -> ceil_div 0 b = 0.
Proof.
  intros Hb. unfold ceil_div. apply Z.div_small. lia.
Qed.

Lemma ceil_div_step (r b : Z) :
  0 < b -> 0 < r -> ceil_div r b = 1 + ceil_div (Z.max 0 (r - b)) b.
Proof.
  intros Hb Hr. destruct (Z.le_gt_cases r b) as [Hle | Hgt].
  - rewrite Z.max_l by lia. rewrite ceil_div_zero by exact Hb.
    unfold ceil_div.
    replace (r + b - 1) with (r - 1 + 1 * b) by lia.
    rewrite Z.div_add by lia. rewrite Z.div_small by lia. reflexivity.
  - rewrite Z.max_r by lia. unfold ceil_div.
    replace (r + b - 1) with (r - b + b - 1 + 1 * b) by lia.
    rewrite Z.div_add by lia. lia.
Qed.

Section Slices.

Variable A : Type.
Variable rs : list A.
Variable step : Z.
Hypothesis step_pos : 0 < step.

Local Abbreviation stop := (Z.of_nat (List.length rs)).

(** The slices [rs[i:i + step]] taken at the values of the range. *)
Local Abbreviation slices starts :=
  (map (fun i => firstn (Z.to_nat (i + step - i)) (skipn (Z.to_nat i) rs))
       starts).

(** From any start on, the slices are the rest of the rows cut into
    pieces, and there are as many as the ceiling says. *)
Lemma range_loop_slices (fuel : nat) :
  forall i,
    0 <= i -> stop - i <= Z.of_nat fuel ->
    List.concat (slices (range_loop fuel i stop step)) = skipn (Z.to_nat i) rs
    /\ Z.of_nat (List.length (range_loop fuel i stop step))
       = ceil_div (Z.max 0 (stop - i)) step.
Proof.
  induction fuel as [|fuel IH]; intros i Hi Hfuel.
  - cbn [range_loop map List.concat List.length].
    rewrite Z.max_l by lia. rewrite ceil_div_zero by exact step_pos.
    split; [|reflexivity].
    symmetry. apply skipn_all2. lia.
  - cbn [range_loop]. destruct (i <? stop) eqn:T.
    + apply Z.ltb_lt in T.
      destruct (IH (i + step) ltac:(lia) ltac:(lia)) as [Hc Hn].
      cbn [map List.concat List.length].
      rewrite Hc. split.
      * replace (Z.to_nat (i + step - i)) with (Z.to_nat step) by lia.
        replace (Z.to_nat (i + step))
          with (Z.to_nat step + Z.to_nat i)%nat by lia.
        rewrite <- skipn_skipn. apply firstn_skipn.
      * rewrite Nat2Z.inj_succ, Hn.
        rewrite (Z.max_r 0 (stop - i)) by lia.
        rewrite (ceil_div_step (stop - i) step) by lia.
        replace (stop - (i + step)) with (stop - i - step) by lia. lia.
    + apply Z.ltb_ge in T.
      cbn [map List.concat List.length].
      rewrite Z.max_l by lia. rewrite ceil_div_zero by exact step_pos.
      split; [|reflexivity].
      symmetry. apply skipn_all2. lia.
Qed.

End Slices.

Lemma sum_lengths_concat (A : Type) (ls : list (list A)) :
  fold_right Z.add 0 (map (fun l => Z.of_nat (List.length l)) ls)
  = Z.of_nat (List.length (List.concat ls)).
Proof.
  induction ls as [|l ls IH]; cbn [map fold_right List.concat].
  - reflexivity.
  - rewrite IH, length_app. lia.
Qed.

(** The rows of the groups of [split_table] are the slices at the values
    of its range. *)
Lemma split_table_rows (L : Z) (table_df : DataFrame) (starts : list Z) :
  map rows
      (map (concat_header (columns table_df))
           (map (fun i => df_slice table_df i (i + L)) starts))
  = map (fun i =>
           firstn (Z.to_nat (i + L - i)) (skipn (Z.to_nat i) (rows table_df)))
        starts.
Proof.
  rewrite !map_map. apply map_ext. intros i. reflexivity.
Qed.

Lemma split_table_some (L : Z) (table_df : DataFrame) :
  0 < L ->
  split_table L table_df
  = Some (map (concat_header (columns table_df))
            (map (fun i => df_slice table_df i (i + L))
                 (range_loop (Z.to_nat (df_len table_df)) 0
                             (df_len table_df) L))).
Proof.
  intros HL. unfold split_table, range0.
  destruct (L =? 0) eqn:E0; [apply Z.eqb_eq in E0; lia|].
  destruct (L <? 0) eqn:E1; [apply Z.ltb_lt in E1; lia|].
  reflexivity.
Qed.

(** C9.  A table with more rows than a (positive) row limit is split
    into exactly [ceil(R / L)] groups; every group has the header of the
    table and at most [L] rows; the row counts of the groups add up to
    [R], the groups being the rows of the table in order. *)
Theorem split_table_groups (L : Z) (table_df : DataFrame) :
  0 < L ->
  df_len table_df > L ->
  exists groups,
    split_table L table_df = Some groups
    /\ tables_to_render L table_df = Some groups
    /\ Z.of_nat (List.length groups) = ceil_div (df_len table_df) L
    /\ (Z.of_nat (List.length groups) - 1) * L
       < df_len table_df <= Z.of_nat (List.length groups) * L
    /\ Forall (fun g => columns g = columns table_df /\ df_len g <= L) groups
    /\ fold_right Z.add 0 (map df_len groups) = df_len table_df
    /\ List.concat (map rows groups) = rows table_df.
Proof.
  intros HL HR. eexists. split; [apply split_table_some; exact HL|].
  split.
  { unfold tables_to_render.
    destruct (df_len table_df >? L) eqn:G.
    - apply split_table_some; exact HL.
    - rewrite Z.gtb_ltb in G. apply Z.ltb_ge in G. lia. }
  set (starts := range_loop _ _ _ _).
  destruct (range_loop_slices _ (rows table_df) L HL
              (Z.to_nat (df_len table_df)) 0 ltac:(lia)
              ltac:(unfold df_len; lia)) as [Hc Hn].
  fold (df_len table_df) in Hc, Hn. fold starts in Hc, Hn.
  rewrite Z.sub_0_r in Hn.
  rewrite Z.max_r in Hn by (unfold df_len; lia).
  cbn [Z.to_nat skipn] in Hc.
  assert (Z.of_nat
            (List.length
               (map (concat_header (columns table_df))
                    (map (fun i => df_slice table_df i (i + L)) starts)))
          = ceil_div (df_len table_df) L) as Hlen.
  { rewrite !length_map. exact Hn. }
  split; [exact Hlen|]. split.
  { rewrite Hlen. apply ceil_div_bounds. exact HL. }
  split.
  { apply Forall_forall. intros g Hg.
    apply in_map_iff in Hg. destruct Hg as [chunk [<- Hchunk]].
    apply in_map_iff in Hchunk. destruct Hchunk as [i [<- _]].
    split; [reflexivity|].
    unfold df_len. cbn [concat_header df_slice rows].
    pose proof (firstn_le_length (Z.to_nat (i + L - i))
                  (skipn (Z.to_nat i) (rows table_df))).
    lia. }
  split.
  { unfold df_len at 1.
    rewrite <- (map_map rows (fun l => Z.of_nat (List.length l))).
    rewrite sum_lengths_concat, split_table_rows, Hc. reflexivity. }
  rewrite split_table_rows. exact Hc.
Qed.

(** With the configured limit of 30, a table of 61 rows gives groups of
    30, 30 and 1 rows. *)
Example split_table_61_rows :
  option_map (map df_len)
    (split_table configured_max_rows_per_table
       (mkDataFrame ["key"; "value"] (repeat ["k"; "v"] 61)))
  = Some [30; 30; 1].
Proof. reflexivity. Qed.

Lemma split_table_groups_witness :
  let table_df := mkDataFrame ["key"; "value"] (repeat ["k"; "v"] 61) in
  exists groups,
    split_table configured_max_rows_per_table table_df = Some groups
    /\ tables_to_render configured_max_rows_per_table table_df = Some groups
    /\ Z.of_nat (List.length groups)
       = ceil_div (df_len table_df) configured_max_rows_per_table
    /\ (Z.of_nat (List.length groups) - 1) * configured_max_rows_per_table
       < df_len table_df
       <= Z.of_nat (List.length groups) * configured_max_rows_per_table
    /\ Forall (fun g => columns g = columns table_df
                        /\ df_len g <= configured_max_rows_per_table) groups
    /\ fold_right Z.add 0 (map df_len groups) = df_len table_df
    /\ List.concat (map rows groups) = rows table_df.
Proof.
  apply (split_table_groups configured_max_rows_per_table
           (mkDataFrame ["key"; "value"] (repeat ["k"; "v"] 61))).
  - reflexivity.
  - reflexivity.
Defined.

End TablesFacts.

(* ================================================================== *)
(** * The context assembler *)
(* ================================================================== *)

Module ContextFacts.
Import PyStr Context.

Local Open Scope Z_scope.

Lemma tokens_with_separators_cons (page : page) (pages : list Context.page) :
  tokens_with_separators (page :: pages)
  = num_tokens page + 4 + tokens_with_separators pages.
Proof. reflexivity. Qed.

(** The loop takes the first [k] pages, for the [k] at which it stops. *)
Lemma choose_prefix (max_tokens_per_context : Z) (pages : list page) :
  forall st,
  exists k,
    (k <= List.length pages)%nat
    /\ chosen_pages_content (choose max_tokens_per_context pages st)
       = (chosen_pages_content st
            ++ map page_content (firstn k pages))%list
    /\ sum_tokens_chosen (choose max_tokens_per_context pages st)
       = sum_tokens_chosen st + tokens_with_separators (firstn k pages)
    /\ (k <> 0%nat ->
        sum_tokens_chosen (choose max_tokens_per_context pages st) - 4
        <= max_tokens_per_context)
    /\ (forall page,
          nth_error pages k = Some page ->
          sum_tokens_chosen (choose max_tokens_per_context pages st)
            + num_tokens page > max_tokens_per_context).
Proof.
  induction pages as [|p rest IH]; intros st; cbn [choose].
  - exists 0%nat. cbn. rewrite app_nil_r. repeat split; try lia.
    intros page H. discriminate.
  - destruct (_ >? _) eqn:T.
    + exists 0%nat. cbn. rewrite app_nil_r. repeat split; try lia.
      intros page H. injection H as <-.
      rewrite Z.gtb_ltb in T. apply Z.ltb_lt in T. lia.
    + rewrite Z.gtb_ltb in T. apply Z.ltb_ge in T.
      destruct (IH (mkChosen
                      (chosen_pages_content st ++ [page_content p])%list
                      (sum_tokens_chosen st + (num_tokens p + 4))))
        as (k & Hk & Hc & Hs & Hb & Hn).
      cbn [chosen_pages_content sum_tokens_chosen] in Hc, Hs.
      exists (S k). cbn [firstn map List.length nth_error].
      rewrite tokens_with_separators_cons.
      split; [lia|]. split; [rewrite Hc, <- app_assoc; reflexivity|].
      split; [lia|]. split; [|exact Hn].
      intros _. destruct k as [|k']; [|apply Hb; discriminate].
      rewrite Hs. cbn. lia.
Qed.

(** The scenario of the specification: three pages of 1000 tokens and a
    budget of 2500; the first two are chosen, the running total is 2008
    after the second, and the third is left out. *)
Example three_pages_budget_2500 :
  let page title := mkPage "SYS" title title "wiki" 1000 in
  choose 2500 [page "a"; page "b"; page "c"] (mkChosen [] 0)
  = mkChosen ["a"; "b"] 2008.
Proof. reflexivity. Qed.

End ContextFacts.

(* ================================================================== *)
(** * The conversation memory *)
(* ================================================================== *)

Module MemoryFacts.
Import PyStr Memory.

Local Open Scope Z_scope.

Lemma del_slice_1_4_length (A : Type) (l : list A) :
  List.length (del_slice 1 4 l)
  = (Nat.min 1 (List.length l) + (List.length l - 4))%nat.
Proof.
  unfold del_slice. rewrite length_app, length_firstn, length_skipn.
  reflexivity.
Qed.

(** [del l[1:4]] keeps position 0 and moves every position after 3 down
    by three. *)
Lemma del_slice_1_4_nth (A : Type) (l : list A) (i : nat) :
  nth_error (del_slice 1 4 l) i
  = nth_error l (if (i =? 0)%nat then 0%nat else (i + 3)%nat).
Proof.
  unfold del_slice. destruct l as [|a l].
  - destruct i; reflexivity.
  - destruct i as [|j]; [reflexivity|].
    change (nth_error (skipn 3 l) j = nth_error (a :: l) (S j + 3)).
    rewrite nth_error_skipn.
    replace (S j + 3)%nat with (S (3 + j)) by lia. reflexivity.
Qed.

Lemma nth_error_head_app (A : Type) (l l' : list A) (a : A) :
  nth_error l 0 = Some a -> nth_error (l ++ l') 0 = Some a.
Proof. destruct l; [discriminate | exact (fun H => H)]. Qed.

Lemma head_length (A : Type) (l : list A) (a : A) :
  nth_error l 0 = Some a -> (1 <= List.length l)%nat.
Proof. destruct l; [discriminate | cbn; lia]. Qed.

Section Config.

Variable system_message : string.
Variable max_tokens_per_context : Z.
Variable max_messages_to_keep : Z.

Local Abbreviation contruct_prompt :=
  (contruct_prompt max_messages_to_keep).
Local Abbreviation ask_memory :=
  (ask_memory max_tokens_per_context max_messages_to_keep).
Local Abbreviation evicts := (evicts max_messages_to_keep).
Local Abbreviation reachable :=
  (reachable system_message max_tokens_per_context max_messages_to_keep).
Local Abbreviation chat_loop :=
  (chat_loop max_tokens_per_context max_messages_to_keep).

(** The two appends of lines 168-169. *)
Lemma contruct_prompt_appended
    (query : string) (memory : list message) (context : string) :
  contruct_prompt query memory context
  = let appended :=
      (memory ++ [mkMessage assistant context; mkMessage user query])%list
    in
    if Z.of_nat (List.length appended) >? max_messages_to_keep
    then del_slice 1 4 appended
    else appended.
Proof.
  unfold Memory.contruct_prompt. cbv zeta.
  rewrite <- !app_assoc. reflexivity.
Qed.

Lemma evicts_appended
    (query : string) (memory : list message) (context : string) :
  evicts memory
  = (Z.of_nat
       (List.length
          (memory ++ [mkMessage assistant context; mkMessage user query]))
     >? max_messages_to_keep).
Proof.
  unfold Memory.evicts. rewrite length_app. reflexivity.
Qed.

(** Neither operation touches position 0, whatever the order in which
    they are applied. *)
Lemma contruct_prompt_keeps_head
    (query : string) (memory : list message) (context : string)
    (m : message) :
  nth_error memory 0 = Some m ->
  nth_error (contruct_prompt query memory context) 0 = Some m.
Proof.
  intros H. rewrite contruct_prompt_appended. cbv zeta.
  destruct (_ >? _).
  - rewrite del_slice_1_4_nth. cbn [Nat.eqb].
    now apply nth_error_head_app.
  - now apply nth_error_head_app.
Qed.

Lemma append_answer_keeps_head
    (t : turn) (memory : list message) (m : message) :
  nth_error memory 0 = Some m ->
  nth_error (append_answer t memory) 0 = Some m.
Proof. apply nth_error_head_app. Qed.

Lemma contruct_prompt_length
    (query : string) (memory : list message) (context : string) :
  Z.of_nat (List.length (contruct_prompt query memory context))
  = if evicts memory
    then Z.of_nat (Nat.min 1 (List.length memory + 2)
                   + (List.length memory + 2 - 4))
    else Z.of_nat (List.length memory) + 2.
Proof.
  rewrite contruct_prompt_appended,
    (evicts_appended query memory context). cbv zeta.
  destruct (_ >? _).
  - rewrite del_slice_1_4_length, length_app. reflexivity.
  - rewrite length_app. cbn [List.length]. lia.
Qed.

Local Abbreviation session_inv :=
  (session_inv system_message max_messages_to_keep).

Hypothesis cap_positive : 0 < max_messages_to_keep.

Lemma step_preserves_inv (s s' : list message * phase) :
  step max_tokens_per_context max_messages_to_keep s s' ->
  session_inv s -> session_inv s'.
Proof.
  intros Hstep [Hhead Hlen]. destruct Hstep as [memory t Hq | memory t];
    cbn [fst snd] in *; split; cbn [fst snd].
  - unfold Memory.ask_memory. now apply contruct_prompt_keeps_head.
  - unfold Memory.ask_memory. cbv zeta. rewrite contruct_prompt_length.
    pose proof (head_length _ _ _ Hhead) as H1.
    destruct (evicts memory) eqn:E; [lia|].
    unfold Memory.evicts in E. rewrite Z.gtb_ltb in E.
    apply Z.ltb_ge in E. lia.
  - now apply append_answer_keeps_head.
  - unfold append_answer. rewrite length_app. cbn [List.length]. lia.
Qed.

Lemma reachable_inv (s : list message * phase) :
  reachable s -> session_inv s.
Proof.
  induction 1 as [|s s' _ IH Hstep].
  - split; cbn; [reflexivity | lia].
  - exact (step_preserves_inv s s' Hstep IH).
Qed.

End Config.

(** The loop of [run_chatbot] only passes through reachable states. *)
Lemma chat_loop_reachable
    (system_message : string) (max_tokens_per_context cap : Z)
    (turns : list turn) :
  forall memory,
    reachable system_message max_tokens_per_context cap (memory, AwaitQuery) ->
    reachable system_message max_tokens_per_context cap
      (chat_loop max_tokens_per_context cap turns memory, AwaitQuery).
Proof.
  induction turns as [|t rest IH]; intros memory H; cbn [chat_loop].
  - exact H.
  - destruct (query t =? "exit")%string eqn:E; [exact H|].
    apply String.eqb_neq in E. apply IH. unfold chat_turn.
    eapply reach_step; [eapply reach_step; [exact H|]|].
    + apply step_ask. exact E.
    + apply step_answer.
Qed.

(** C7.  [contruct_prompt] appends the context as an assistant message
    and then the query as a user message; when the length then exceeds
    the cap it deletes the entries at positions 1, 2 and 3 and nothing
    else: position 0 stays, every later entry moves down by three, and
    with a cap of 3 or more (3 as configured) all three positions exist,
    so the list gets three shorter. *)
Theorem contruct_prompt_appends_then_evicts
    (max_messages_to_keep : Z)
    (query : string) (memory : list message) (context : string) :
  let appended :=
    (memory ++ [mkMessage assistant context; mkMessage user query])%list in
  let kept := contruct_prompt max_messages_to_keep query memory context in
  if Z.of_nat (List.length appended) >? max_messages_to_keep
  then kept = del_slice 1 4 appended
       /\ nth_error kept 0 = nth_error appended 0
       /\ (forall i, (1 <= i)%nat ->
             nth_error kept i = nth_error appended (i + 3))
       /\ (3 <= max_messages_to_keep ->
           (List.length kept + 3 = List.length appended)%nat)
  else kept = appended.
Proof.
  cbv zeta. rewrite contruct_prompt_appended. cbv zeta.
  destruct (_ >? _) eqn:E; [|reflexivity].
  split; [reflexivity|]. split; [apply del_slice_1_4_nth|]. split.
  - intros i Hi. rewrite del_slice_1_4_nth.
    destruct i; [lia | reflexivity].
  - intros Hcap. rewrite Z.gtb_ltb in E. apply Z.ltb_lt in E.
    rewrite del_slice_1_4_length. lia.
Qed.

(** In a session of [run_chatbot], which starts from the memory
    that holds the system message alone and calls [contruct_prompt] and
    appends the answer in turn, position 0 always holds the system
    message, role and content unchanged; and the memory is within the
    cap right after every call of [contruct_prompt], those that evict
    included.  The cap is taken positive (3 as configured). *)
Theorem session_keeps_system_message_and_cap
    (system_message : string) (max_tokens_per_context cap : Z)
    (s : list message * phase) :
  0 < cap ->
  reachable system_message max_tokens_per_context cap s ->
  nth_error (fst s) 0 = Some (mkMessage system system_message)
  /\ (snd s = AwaitQuery ->
      forall t,
        evicts cap (fst s) = true ->
        Z.of_nat (List.length (ask_memory max_tokens_per_context cap t (fst s)))
        <= cap)
  /\ (snd s = AwaitQuery ->
      forall t,
        evicts cap (fst s) = false ->
        ask_memory max_tokens_per_context cap t (fst s)
        = (fst s
             ++ [mkMessage assistant
                   (Context.get_context max_tokens_per_context
                      (query t) (ranked t));
                 mkMessage user (query t)])%list
        /\ Z.of_nat
             (List.length (ask_memory max_tokens_per_context cap t (fst s)))
           <= cap).
Proof.
  intros Hcap Hreach.
  destruct (reachable_inv _ _ _ Hcap s Hreach) as [Hhead Hlen].
  split; [exact Hhead|].
  pose proof (head_length _ _ _ Hhead) as H1.
  split; intros Hphase t E; rewrite Hphase in Hlen;
    unfold ask_memory; cbv zeta.
  - rewrite contruct_prompt_length, E. lia.
  - split.
    + rewrite contruct_prompt_appended. cbv zeta.
      rewrite <- (evicts_appended cap (query t) (fst s)), E. reflexivity.
    + rewrite contruct_prompt_length, E.
      unfold evicts in E. rewrite Z.gtb_ltb in E. apply Z.ltb_ge in E. lia.
Qed.

Lemma session_keeps_system_message_and_cap_witness :
  let t0 := mkTurn "Wie komme ich ins VPN?" [] ["Ich weiss "; "es nicht."] in
  let cap := configured_max_messages_to_keep in
  let budget := Context.configured_max_tokens_per_context in
  let s :=
    (append_answer t0
       (ask_memory budget cap t0 (initialize_memory "Du bist ein Agent.")),
     AwaitQuery) in
  nth_error (fst s) 0 = Some (mkMessage system "Du bist ein Agent.")
  /\ (snd s = AwaitQuery ->
      forall t,
        evicts cap (fst s) = true ->
        Z.of_nat (List.length (ask_memory budget cap t (fst s))) <= cap)
  /\ (snd s = AwaitQuery ->
      forall t,
        evicts cap (fst s) = false ->
        ask_memory budget cap t (fst s)
        = (fst s
             ++ [mkMessage assistant
                   (Context.get_context budget (query t) (ranked t));
                 mkMessage user (query t)])%list
        /\ Z.of_nat (List.length (ask_memory budget cap t (fst s))) <= cap).
Proof.
  cbv zeta.
  apply (session_keeps_system_message_and_cap
           "Du bist ein Agent."
           Context.configured_max_tokens_per_context
           configured_max_messages_to_keep).
  - reflexivity.
  - eapply reach_step; [eapply reach_step; [apply reach_init|]|].
    + apply (step_ask _ _ _
               (mkTurn "Wie komme ich ins VPN?" []
                  ["Ich weiss "; "es nicht."])).
      discriminate.
    + apply step_answer.
Defined.

(** The scenario of the specification, with the configured cap of 3:
    after one turn and its answer the memory has four entries; the next
    call of [contruct_prompt] makes six of them, deletes positions 1 to
    3 and leaves the system message, the new context and the new
    query. *)
Example second_turn_evicts :
  let sys := mkMessage system "S" in
  let memory :=
    [sys; mkMessage assistant "c1"; mkMessage user "q1";
     mkMessage assistant "a1"] in
  contruct_prompt configured_max_messages_to_keep "q2" memory "c2"
  = [sys; mkMessage assistant "c2"; mkMessage user "q2"].
Proof. reflexivity. Qed.

(** The bound on the length rests on the alternation of [run_chatbot]:
    were five answers appended in a row, the next call of
    [contruct_prompt] would evict and still leave five entries. *)
Remark eviction_after_answers_in_a_row :
  let sys := mkMessage system "S" in
  let a := mkMessage assistant "a" in
  List.length
    (contruct_prompt configured_max_messages_to_keep "q"
       [sys; a; a; a; a; a] "c")
  = 5%nat.
Proof. reflexivity. Qed.

End MemoryFacts.

(* ================================================================== *)
(** * The memory under any sequence of its two mutations *)
(* ================================================================== *)

Module MemoryOpsFacts.
Import PyStr Memory MemoryOps MemoryFacts.

Local Open Scope Z_scope.

Lemma apply_ops_app
    (cap : Z) (ops ops' : list op) (memory : list message) :
  apply_ops cap (ops ++ ops')%list memory
  = apply_ops cap ops' (apply_ops cap ops memory).
Proof. apply fold_left_app. Qed.

(** Neither mutation touches position 0. *)
Lemma apply_op_keeps_head
    (cap : Z) (memory : list message) (o : op) (m : message) :
  nth_error memory 0 = Some m ->
  nth_error (apply_op cap memory o) 0 = Some m.
Proof.
  intros H. destruct o as [query context|answer]; cbn [apply_op].
  - now apply contruct_prompt_keeps_head.
  - now apply nth_error_head_app.
Qed.

Lemma apply_ops_keeps_head (cap : Z) (ops : list op) (m : message) :
  forall memory,
    nth_error memory 0 = Some m ->
    nth_error (apply_ops cap ops memory) 0 = Some m.
Proof.
  unfold apply_ops.
  induction ops as [|o rest IH]; intros memory H; cbn [fold_left].
  - exact H.
  - apply IH. now apply apply_op_keeps_head.
Qed.

Lemma answers_apart_from_app
    (ops ops' : list op) :
  forall after_answer,
    answers_apart_from after_answer (ops ++ ops')%list = true ->
    answers_apart_from after_answer ops = true.
Proof.
  induction ops as [|o rest IH]; intros b H; [reflexivity|].
  destruct o as [query context|answer];
    cbn [app answers_apart_from] in *.
  - now apply IH.
  - apply andb_true_iff in H as [Hb H]. rewrite Hb. cbn [andb].
    now apply IH.
Qed.

(** A call of [contruct_prompt] on a memory that holds at most one
    message more than the cap leaves at most as many as the cap. *)
Lemma contruct_prompt_within_cap
    (cap : Z) (query context : string) (memory : list message) :
  0 < cap ->
  (1 <= List.length memory)%nat ->
  Z.of_nat (List.length memory) <= cap + 1 ->
  Z.of_nat (List.length (contruct_prompt cap query memory context)) <= cap.
Proof.
  intros Hcap H1 Hlen. rewrite contruct_prompt_length.
  destruct (evicts cap memory) eqn:E.
  - rewrite Nat.min_l by lia. lia.
  - unfold evicts in E. rewrite Z.gtb_ltb in E. apply Z.ltb_ge in E. lia.
Qed.

(** While no two answers follow one another, the memory holds at most
    one message more than the cap. *)
Lemma apply_ops_length (cap : Z) (ops : list op) :
  0 < cap ->
  forall (after_answer : bool) (memory : list message),
    (1 <= List.length memory)%nat ->
    Z.of_nat (List.length memory)
    <= cap + (if after_answer then 1 else 0) ->
    answers_apart_from after_answer ops = true ->
    (1 <= List.length (apply_ops cap ops memory))%nat
    /\ Z.of_nat (List.length (apply_ops cap ops memory)) <= cap + 1.
Proof.
  intros Hcap. unfold apply_ops.
  induction ops as [|o rest IH]; intros b memory H1 Hlen Hap;
    cbn [fold_left].
  - split; [exact H1|]. destruct b; lia.
  - destruct o as [query context|answer];
      cbn [answers_apart_from apply_op] in *.
    + assert (Z.of_nat (List.length memory) <= cap + 1) as Hlen'
        by (destruct b; lia).
      pose proof (contruct_prompt_within_cap cap query context memory
                    Hcap H1 Hlen') as Hc.
      apply (IH false); [|lia|exact Hap].
      destruct memory as [|m memory']; [cbn in H1; lia|].
      apply (head_length _ _ m).
      now apply contruct_prompt_keeps_head.
    + apply andb_true_iff in Hap as [Hb Hap].
      destruct b; [discriminate|].
      apply (IH true); [| |exact Hap];
        rewrite length_app; cbn [List.length]; lia.
Qed.

(** C8, the statement of the specification fails.  At the configured
    cap of 3, after four answers appended in a row the call of
    [contruct_prompt] evicts and leaves four messages; and at a cap of 0
    the first call evicts and leaves the system message, one message. *)
Lemma eviction_leaves_more_than_cap :
  (let memory :=
     apply_ops configured_max_messages_to_keep
       [AppendAnswer "a1"; AppendAnswer "a2"; AppendAnswer "a3";
        AppendAnswer "a4"]
       (initialize_memory "S")
   in
   evicts configured_max_messages_to_keep memory = true
   /\ apply_op configured_max_messages_to_keep memory (AppendTurn "q" "c")
      = [mkMessage system "S"; mkMessage assistant "a4";
         mkMessage assistant "c"; mkMessage user "q"]
   /\ ~ (Z.of_nat
           (List.length
              (apply_op configured_max_messages_to_keep memory
                 (AppendTurn "q" "c")))
         <= configured_max_messages_to_keep))
  /\ (let memory := initialize_memory "S" in
      evicts 0 memory = true
      /\ apply_op 0 memory (AppendTurn "q" "c") = [mkMessage system "S"]
      /\ ~ (Z.of_nat
              (List.length (apply_op 0 memory (AppendTurn "q" "c")))
            <= 0)).
Proof.
  cbv zeta. repeat split; try reflexivity; vm_compute; congruence.
Qed.

(** C8 (amended).  Starting from the memory that holds the system
    message alone, after every sequence of calls of [contruct_prompt]
    and appended answers the element at position 0 is the system
    message, with its role and its content.  When the cap is positive
    and no answer is appended directly after another one, the memory
    holds at most [max_messages_to_keep] messages immediately after
    every call of [contruct_prompt] of the sequence that evicted. *)
Theorem operations_keep_system_message_and_cap
    (system_message : string) (max_messages_to_keep : Z) (ops : list op) :
  nth_error
    (apply_ops max_messages_to_keep ops (initialize_memory system_message))
    0
  = Some (mkMessage system system_message)
  /\ (0 < max_messages_to_keep ->
      answers_apart ops = true ->
      forall before query context after,
        ops = (before ++ AppendTurn query context :: after)%list ->
        let memory :=
          apply_ops max_messages_to_keep before
            (initialize_memory system_message)
        in
        evicts max_messages_to_keep memory = true ->
        Z.of_nat
          (List.length
             (apply_op max_messages_to_keep memory
                (AppendTurn query context)))
        <= max_messages_to_keep).
Proof.
  split.
  - now apply apply_ops_keeps_head.
  - intros Hcap Hap before query context after -> memory _.
    apply answers_apart_from_app in Hap.
    destruct (apply_ops_length max_messages_to_keep before Hcap false
                (initialize_memory system_message)) as [H1 Hlen].
    + cbn. lia.
    + cbn. lia.
    + exact Hap.
    + cbn [apply_op]. now apply contruct_prompt_within_cap.
Qed.

Lemma operations_keep_system_message_and_cap_witness :
  let ops :=
    [AppendTurn "q1" "c1"; AppendAnswer "a1"; AppendTurn "q2" "c2"] in
  nth_error
    (apply_ops configured_max_messages_to_keep ops (initialize_memory "S")) 0
  = Some (mkMessage system "S")
  /\ Z.of_nat
       (List.length
          (apply_op configured_max_messages_to_keep
             (apply_ops configured_max_messages_to_keep
                [AppendTurn "q1" "c1"; AppendAnswer "a1"]
                (initialize_memory "S"))
             (AppendTurn "q2" "c2")))
     <= configured_max_messages_to_keep.
Proof.
  cbv zeta.
  destruct (operations_keep_system_message_and_cap "S"
              configured_max_messages_to_keep
              [AppendTurn "q1" "c1"; AppendAnswer "a1";
               AppendTurn "q2" "c2"]) as [Hhead Hcap].
  split; [exact Hhead|].
  apply (Hcap eq_refl eq_refl
           [AppendTurn "q1" "c1"; AppendAnswer "a1"] "q2" "c2" []).
  - reflexivity.
  - reflexivity.
Defined.

End MemoryOpsFacts.

(* ================================================================== *)
(** * What a session leaves in the memory *)
(* ================================================================== *)

Module SessionsFacts.
Import PyStr Memory MemoryFacts Sessions.

Local Open Scope Z_scope.

Lemma keep_last_length (A : Type) (k : nat) (l : list A) :
  List.length (keep_last k l) = Nat.min k (List.length l).
Proof. unfold keep_last. rewrite length_skipn. lia. Qed.

Lemma keep_last_all (A : Type) (k : nat) (l : list A) :
  (List.length l <= k)%nat -> keep_last k l = l.
Proof.
  intros H. unfold keep_last.
  replace (List.length l - k)%nat with 0%nat by lia. reflexivity.
Qed.

(** Keeping the last [k] at every step is keeping the last [k] at the
    end. *)
Lemma keep_last_app (A : Type) (k : nat) (a b : list A) :
  keep_last k (keep_last k a ++ b) = keep_last k (a ++ b).
Proof.
  unfold keep_last. rewrite !length_app, length_skipn, !skipn_app.
  rewrite length_skipn, skipn_skipn. f_equal.
  - f_equal. lia.
  - f_equal. lia.
Qed.

Lemma before_exit_no_exit (turns : list turn) :
  Forall (fun t => query t <> "exit") (before_exit turns).
Proof.
  induction turns as [|t rest IH]; cbn [before_exit]; [constructor|].
  destruct (query t =? "exit")%string eqn:E; [constructor|].
  constructor; [now apply String.eqb_neq | exact IH].
Qed.

Lemma before_exit_clean (turns : list turn) :
  Forall (fun t => query t <> "exit") turns -> before_exit turns = turns.
Proof.
  induction 1 as [|x xs Hx _ IH]; cbn [before_exit]; [reflexivity|].
  apply String.eqb_neq in Hx. rewrite Hx. f_equal. exact IH.
Qed.

Lemma before_exit_app (before after : list turn) (t : turn) :
  Forall (fun t => query t <> "exit") before ->
  query t = "exit" ->
  before_exit (before ++ t :: after) = before.
Proof.
  intros H E. induction H as [|x xs Hx _ IH]; cbn [app before_exit].
  - rewrite E. reflexivity.
  - apply String.eqb_neq in Hx. rewrite Hx. now rewrite IH.
Qed.

Section Config.

Variable system_message : string.
Variable max_tokens_per_context : Z.
Variable max_messages_to_keep : Z.

Local Abbreviation answered := (answered max_tokens_per_context).
Local Abbreviation asked := (asked max_tokens_per_context).
Local Abbreviation chat_loop :=
  (chat_loop max_tokens_per_context max_messages_to_keep).
Local Abbreviation chat_turn :=
  (chat_turn max_tokens_per_context max_messages_to_keep).
Local Abbreviation ask_memory :=
  (ask_memory max_tokens_per_context max_messages_to_keep).
Local Abbreviation memory_of kept :=
  (mkMessage system system_message :: flat_map answered kept).
Local Abbreviation turns_kept := (Z.to_nat (max_messages_to_keep / 3)).

Lemma memory_of_length (kept : list turn) :
  List.length (flat_map answered kept) = (3 * List.length kept)%nat.
Proof.
  induction kept as [|t kept IH]; cbn [flat_map List.length].
  - reflexivity.
  - rewrite length_app, IH. cbn. lia.
Qed.

(** The loop only looks at the turns before the first ['exit']. *)
Lemma chat_loop_before_exit (turns : list turn) :
  forall memory,
    chat_loop turns memory = fold_left chat_turn (before_exit turns) memory.
Proof.
  induction turns as [|t rest IH]; intros memory;
    cbn [Memory.chat_loop before_exit].
  - reflexivity.
  - destruct (query t =? "exit")%string; [reflexivity|].
    cbn [fold_left]. apply IH.
Qed.

Hypothesis cap_three : 3 <= max_messages_to_keep.

Lemma turns_kept_bounds :
  3 * Z.of_nat turns_kept <= max_messages_to_keep
  < 3 * Z.of_nat turns_kept + 3
  /\ (1 <= turns_kept)%nat.
Proof.
  pose proof (Z.div_mod max_messages_to_keep 3 ltac:(lia)) as E.
  pose proof (Z.mod_pos_bound max_messages_to_keep 3 ltac:(lia)) as M.
  assert (1 <= max_messages_to_keep / 3) by lia.
  rewrite Z2Nat.id by lia. lia.
Qed.

(** [contruct_prompt] on a memory that holds whole turns: the oldest
    turn goes when, and only when, [turns_kept] turns are held. *)
Lemma ask_memory_of (kept : list turn) (t : turn) :
  (List.length kept <= turns_kept)%nat ->
  ask_memory t (memory_of kept)
  = (memory_of (keep_last (turns_kept - 1) kept) ++ asked t)%list.
Proof.
  intros Hk. destruct turns_kept_bounds as [[Hlo Hhi] H1].
  unfold Memory.ask_memory. cbv zeta.
  rewrite contruct_prompt_appended. cbv zeta.
  fold (asked t).
  assert (List.length (memory_of kept ++ asked t)
          = (3 * List.length kept + 3)%nat) as L.
  { rewrite length_app. cbn [List.length]. rewrite memory_of_length.
    cbn. lia. }
  rewrite L.
  destruct (Z.of_nat (3 * List.length kept + 3) >? max_messages_to_keep)
    eqn:T.
  - rewrite Z.gtb_ltb in T. apply Z.ltb_lt in T.
    assert (List.length kept = turns_kept) as Hfull by lia.
    destruct kept as [|t1 rest]; [cbn in Hfull; lia|].
    cbn [List.length] in Hfull.
    unfold keep_last. cbn [List.length].
    replace (S (List.length rest) - (turns_kept - 1))%nat with 1%nat by lia.
    reflexivity.
  - rewrite Z.gtb_ltb in T. apply Z.ltb_ge in T.
    rewrite keep_last_all by lia. reflexivity.
Qed.

Lemma chat_turn_of (kept : list turn) (t : turn) :
  (List.length kept <= turns_kept)%nat ->
  chat_turn (memory_of kept) t
  = memory_of (keep_last turns_kept (kept ++ [t])).
Proof.
  intros Hk. destruct turns_kept_bounds as [_ H1].
  unfold Memory.chat_turn, append_answer. rewrite ask_memory_of by exact Hk.
  cbn [app]. f_equal. rewrite <- app_assoc.
  change (asked t ++ [mkMessage assistant (join "" (fragments t))])%list
    with (answered t).
  replace (answered t) with (flat_map answered [t])
    by (cbn [flat_map]; apply app_nil_r).
  rewrite <- flat_map_app. f_equal.
  unfold keep_last. rewrite length_app. cbn [List.length].
  rewrite skipn_app.
  replace (List.length kept + 1 - turns_kept - List.length kept)%nat
    with 0%nat by lia.
  cbn [skipn]. f_equal. f_equal. lia.
Qed.

Lemma fold_chat_turn_of (turns : list turn) :
  forall kept,
    (List.length kept <= turns_kept)%nat ->
    fold_left chat_turn turns (memory_of kept)
    = memory_of (keep_last turns_kept (kept ++ turns)).
Proof.
  induction turns as [|t rest IH]; intros kept Hk; cbn [fold_left].
  - rewrite app_nil_r, keep_last_all by exact Hk. reflexivity.
  - rewrite chat_turn_of by exact Hk.
    rewrite IH by (rewrite keep_last_length; lia).
    rewrite keep_last_app, <- app_assoc. reflexivity.
Qed.

Lemma chat_loop_of (turns : list turn) :
  chat_loop turns (Memory.initialize_memory system_message)
  = memory_of (keep_last turns_kept (before_exit turns)).
Proof.
  rewrite chat_loop_before_exit.
  apply (fold_chat_turn_of (before_exit turns) []). cbn. lia.
Qed.

End Config.

(** X1.  The loop of [run_chatbot] stops at the first line ['exit']: what is
    typed after it is never read. *)
Theorem run_chatbot_stops_at_exit
    (system_message : string) (max_tokens_per_context cap : Z)
    (before after : list turn) (t : turn) :
  Forall (fun t => query t <> "exit") before ->
  query t = "exit" ->
  run_chatbot system_message max_tokens_per_context cap
    (before ++ t :: after)
  = run_chatbot system_message max_tokens_per_context cap before.
Proof.
  intros Hb Ht. unfold run_chatbot.
  rewrite !chat_loop_before_exit.
  rewrite (before_exit_app before after t Hb Ht).
  now rewrite (before_exit_clean before Hb).
Qed.

Lemma run_chatbot_stops_at_exit_witness :
  let t1 := mkTurn "Wie?" [] ["So."] in
  let t2 := mkTurn "exit" [] [] in
  let t3 := mkTurn "Und dann?" [] ["Nichts."] in
  run_chatbot "S" 3490 3 ([t1] ++ t2 :: [t3]) = run_chatbot "S" 3490 3 [t1].
Proof.
  cbv zeta.
  apply (run_chatbot_stops_at_exit "S" 3490 3
           [mkTurn "Wie?" [] ["So."]] [mkTurn "Und dann?" [] ["Nichts."]]
           (mkTurn "exit" [] [])).
  - constructor; [discriminate | constructor].
  - reflexivity.
Defined.

(** X2.  With a cap of at least 3, the memory at the end of [run_chatbot] is
    the system message followed by the context, query and answer of the
    last [cap / 3] turns typed before ['exit'] (of all of them when
    there are fewer), in order: the eviction always removes the oldest
    turn as a whole. *)
Theorem run_chatbot_keeps_last_turns
    (system_message : string) (max_tokens_per_context cap : Z)
    (turns : list turn) :
  3 <= cap ->
  run_chatbot system_message max_tokens_per_context cap turns
  = mkMessage system system_message
      :: flat_map (answered max_tokens_per_context)
           (keep_last (Z.to_nat (cap / 3)) (before_exit turns)).
Proof.
  intros Hcap. unfold run_chatbot. now apply chat_loop_of.
Qed.

Lemma run_chatbot_keeps_last_turns_witness :
  let t1 := mkTurn "Wie?" [] ["So."] in
  let t2 := mkTurn "Und dann?" [] ["Nichts "; "weiter."] in
  let t3 := mkTurn "Warum?" [] ["Darum."] in
  run_chatbot "S" 3490 6 [t1; t2; t3]
  = mkMessage system "S"
      :: flat_map (answered 3490)
           (keep_last (Z.to_nat (6 / 3)) (before_exit [t1; t2; t3])).
Proof.
  cbv zeta.
  apply (run_chatbot_keeps_last_turns "S" 3490 6). lia.
Defined.

(** X3.  With a cap of at least 3, the messages that [ask] sends to the
    completion API are the system message, the context, query and answer
    of the last [cap / 3 - 1] turns of the session, and the context and
    the query of the current turn. *)
Theorem prompt_holds_last_turns
    (system_message : string) (max_tokens_per_context cap : Z)
    (turns : list turn) (t : turn) :
  3 <= cap ->
  ask_memory max_tokens_per_context cap t
    (run_chatbot system_message max_tokens_per_context cap turns)
  = ((mkMessage system system_message
        :: flat_map (answered max_tokens_per_context)
             (keep_last (Z.to_nat (cap / 3) - 1) (before_exit turns)))
       ++ asked max_tokens_per_context t)%list.
Proof.
  intros Hcap. unfold run_chatbot.
  rewrite (chat_loop_of system_message max_tokens_per_context cap Hcap).
  rewrite (ask_memory_of system_message max_tokens_per_context cap Hcap)
    by (rewrite keep_last_length; lia).
  f_equal. f_equal. f_equal.
  unfold keep_last. rewrite length_skipn, skipn_skipn. f_equal. lia.
Qed.

Lemma prompt_holds_last_turns_witness :
  let t1 := mkTurn "Wie?" [] ["So."] in
  let t2 := mkTurn "Und dann?" [] ["Nichts "; "weiter."] in
  let t3 := mkTurn "Warum?" [] ["Darum."] in
  ask_memory 3490 6 t3 (run_chatbot "S" 3490 6 [t1; t2])
  = ((mkMessage system "S"
        :: flat_map (answered 3490)
             (keep_last (Z.to_nat (6 / 3) - 1) (before_exit [t1; t2])))
       ++ asked 3490 t3)%list.
Proof.
  cbv zeta.
  apply (prompt_holds_last_turns "S" 3490 6). lia.
Defined.

(** X4.  With the configured cap of 3 the chatbot has no memory of earlier
    turns: whatever was asked and answered before, the messages sent to
    the completion API are the system message, the context of the
    current query and the current query. *)
Theorem configured_prompt_has_no_history
    (system_message : string) (max_tokens_per_context : Z)
    (turns : list turn) (t : turn) :
  ask_memory max_tokens_per_context configured_max_messages_to_keep t
    (run_chatbot system_message max_tokens_per_context
       configured_max_messages_to_keep turns)
  = [mkMessage system system_message;
     mkMessage assistant
       (Context.get_context max_tokens_per_context (query t) (ranked t));
     mkMessage user (query t)].
Proof.
  unfold run_chatbot.
  assert (3 <= configured_max_messages_to_keep) as Hcap by discriminate.
  rewrite (chat_loop_of system_message max_tokens_per_context
             configured_max_messages_to_keep Hcap).
  rewrite (ask_memory_of system_message max_tokens_per_context
             configured_max_messages_to_keep Hcap)
    by (rewrite keep_last_length; lia).
  change (Z.to_nat (configured_max_messages_to_keep / 3) - 1)%nat
    with 0%nat.
  unfold keep_last at 1. rewrite Nat.sub_0_r, skipn_all. reflexivity.
Qed.

(** X5.  [contruct_prompt] leaves the new context and the new query at the
    end of the memory when it does not evict, or when the memory it is
    given has at least four entries. *)
Theorem contruct_prompt_ends_with_new_messages
    (cap : Z) (query : string) (memory : list message) (context : string) :
  evicts cap memory = false \/ (4 <= List.length memory)%nat ->
  exists older,
    contruct_prompt cap query memory context
    = (older ++ [mkMessage assistant context; mkMessage user query])%list.
Proof.
  intros H. rewrite contruct_prompt_appended. cbv zeta.
  rewrite <- (evicts_appended cap query memory context).
  destruct (evicts cap memory) eqn:E.
  - destruct H as [H | H]; [discriminate|].
    destruct memory as [|m0 [|m1 [|m2 [|m3 rest]]]]; cbn in H; try lia.
    exists (m0 :: rest). reflexivity.
  - exists memory. reflexivity.
Qed.

Lemma contruct_prompt_ends_with_new_messages_witness :
  exists older,
    contruct_prompt 3 "q2"
      [mkMessage system "S"; mkMessage assistant "c1"; mkMessage user "q1";
       mkMessage assistant "a1"] "c2"
    = (older ++ [mkMessage assistant "c2"; mkMessage user "q2"])%list.
Proof.
  apply (contruct_prompt_ends_with_new_messages 3 "q2"
           [mkMessage system "S"; mkMessage assistant "c1";
            mkMessage user "q1"; mkMessage assistant "a1"] "c2").
  right. cbn. lia.
Defined.

(** X6.  When [contruct_prompt] evicts on a memory of fewer than four
    entries, [del memory[1:4]] reaches the messages just appended: on a
    memory of three entries the new context is deleted and the query
    follows the first entry; on a shorter one the query is deleted too,
    and one entry is left. *)
Theorem contruct_prompt_short_memory_loses_context
    (cap : Z) (query : string) (memory : list message) (context : string) :
  evicts cap memory = true ->
  (List.length memory <= 3)%nat ->
  contruct_prompt cap query memory context
  = if (List.length memory =? 3)%nat
    then (firstn 1 memory ++ [mkMessage user query])%list
    else firstn 1 (memory ++ [mkMessage assistant context]).
Proof.
  intros E H. rewrite contruct_prompt_appended. cbv zeta.
  rewrite <- (evicts_appended cap query memory context), E.
  destruct memory as [|m0 [|m1 [|m2 [|m3 rest]]]]; cbn in H; try lia;
    reflexivity.
Qed.

Lemma contruct_prompt_short_memory_loses_context_witness :
  contruct_prompt 3 "q"
    [mkMessage system "S"; mkMessage assistant "a"; mkMessage user "b"] "c"
  = if (List.length
          [mkMessage system "S"; mkMessage assistant "a";
           mkMessage user "b"] =? 3)%nat
    then (firstn 1
            [mkMessage system "S"; mkMessage assistant "a";
             mkMessage user "b"] ++ [mkMessage user "q"])%list
    else firstn 1
           ([mkMessage system "S"; mkMessage assistant "a";
             mkMessage user "b"] ++ [mkMessage assistant "c"]).
Proof.
  apply (contruct_prompt_short_memory_loses_context 3 "q"
           [mkMessage system "S"; mkMessage assistant "a";
            mkMessage user "b"] "c").
  - reflexivity.
  - cbn. lia.
Defined.

End SessionsFacts.

(* ================================================================== *)
(** * The context assembler: budgets *)
(* ================================================================== *)

Module ContextBudget.
Import PyStr PyStrFacts Context ContextFacts.

Local Open Scope Z_scope.

(** Joining more parts only adds text at the end. *)
Lemma join_app_prefix (sep : string) (parts more : list string) :
  exists suffix, join sep (parts ++ more) = (join sep parts ++ suffix)%string.
Proof.
  induction parts as [|x xs IH]; cbn [app].
  - exists (join sep more). reflexivity.
  - destruct IH as [suffix IH]. destruct xs as [|y ys].
    + cbn [app] in *. destruct more as [|m ms].
      * exists ""%string. cbn. now rewrite append_empty_r.
      * exists (sep ++ join sep (m :: ms))%string.
        now rewrite join_cons by discriminate.
    + exists suffix. cbn [app] in *.
      rewrite (join_cons sep x (y :: ys ++ more)) by discriminate.
      rewrite (join_cons sep x (y :: ys)) by discriminate.
      rewrite IH. now rewrite !append_assoc.
Qed.

Lemma tokens_with_separators_nonneg (pages : list page) :
  Forall (fun page => 0 <= num_tokens page) pages ->
  0 <= tokens_with_separators pages.
Proof.
  induction 1 as [|p ps Hp _ IH]; [reflexivity|].
  rewrite tokens_with_separators_cons. lia.
Qed.

(** Under a larger budget the loop goes at least as far. *)
Lemma choose_budget_monotone (low high : Z) (pages : list page) :
  low <= high ->
  forall st,
  exists more,
    chosen_pages_content (choose high pages st)
    = (chosen_pages_content (choose low pages st) ++ more)%list.
Proof.
  intros Hle. induction pages as [|p rest IH]; intros st; cbn [choose].
  - exists []. now rewrite app_nil_r.
  - destruct (sum_tokens_chosen st + num_tokens p >? low) eqn:L.
    + destruct (choose_prefix high (p :: rest) st) as (k & _ & Hc & _).
      cbn [choose] in Hc. eexists. exact Hc.
    + rewrite Z.gtb_ltb in L. apply Z.ltb_ge in L.
      destruct (sum_tokens_chosen st + num_tokens p >? high) eqn:H.
      * rewrite Z.gtb_ltb in H. apply Z.ltb_lt in H. lia.
      * apply IH.
Qed.

(** When the pages fit together, the loop takes them all. *)
Lemma choose_all (budget : Z) (pages : list page) :
  Forall (fun page => 0 <= num_tokens page) pages ->
  forall st,
    sum_tokens_chosen st + tokens_with_separators pages - 4 <= budget ->
    chosen_pages_content (choose budget pages st)
    = (chosen_pages_content st ++ map page_content pages)%list.
Proof.
  induction 1 as [|p rest Hp Hrest IH]; intros st Hfit; cbn [choose map].
  - now rewrite app_nil_r.
  - rewrite tokens_with_separators_cons in Hfit.
    pose proof (tokens_with_separators_nonneg rest Hrest) as Hnn.
    destruct (_ >? _) eqn:T.
    + rewrite Z.gtb_ltb in T. apply Z.ltb_lt in T. lia.
    + rewrite IH by (cbn [sum_tokens_chosen]; lia).
      cbn [chosen_pages_content]. now rewrite <- app_assoc.
Qed.

(** X7.  Raising the budget never takes a page out of the context: the
    context under the larger budget starts with the whole context under
    the smaller one. *)
Theorem get_context_budget_monotone
    (low high : Z) (query : string) (pages_df : list page) :
  low <= high ->
  exists suffix,
    get_context high query pages_df
    = (get_context low query pages_df ++ suffix)%string.
Proof.
  intros Hle. unfold get_context.
  destruct (choose_budget_monotone low high pages_df Hle (mkChosen [] 0))
    as [more ->].
  destruct (join_app_prefix (Chunker.LF ++ Chunker.LF)
              (chosen_pages_content (choose low pages_df (mkChosen [] 0)))
              more) as [suffix ->].
  exists suffix. now rewrite append_assoc.
Qed.

Lemma get_context_budget_monotone_witness :
  let page title := mkPage "SYS" title title "wiki" 1000 in
  exists suffix,
    get_context 3490 "Wie?" [page "a"; page "b"; page "c"; page "d"]
    = (get_context 1700 "Wie?" [page "a"; page "b"; page "c"; page "d"]
         ++ suffix)%string.
Proof.
  cbv zeta.
  apply (get_context_budget_monotone 1700 3490). lia.
Defined.

(** X8.  When no page has a negative token count and the tokens of all pages,
    with one separator overhead between two pages, are within the
    budget, the context holds every page of the frame, in order. *)
Theorem get_context_takes_all_that_fit
    (budget : Z) (query : string) (pages_df : list page) :
  Forall (fun page => 0 <= num_tokens page) pages_df ->
  tokens_with_separators pages_df - 4 <= budget ->
  get_context budget query pages_df
  = (context_message
       ++ join (Chunker.LF ++ Chunker.LF) (map page_content pages_df))%string.
Proof.
  intros Hnn Hfit. unfold get_context.
  rewrite (choose_all budget pages_df Hnn (mkChosen [] 0))
    by (cbn [sum_tokens_chosen]; lia).
  reflexivity.
Qed.

Lemma get_context_takes_all_that_fit_witness :
  let page title := mkPage "SYS" title title "wiki" 1000 in
  get_context 3490 "Wie?" [page "a"; page "b"; page "c"]
  = (context_message
       ++ join (Chunker.LF ++ Chunker.LF)
            (map page_content [page "a"; page "b"; page "c"]))%string.
Proof.
  cbv zeta.
  apply (get_context_takes_all_that_fit 3490 "Wie?").
  - repeat constructor; discriminate.
  - vm_compute. discriminate.
Defined.

End ContextBudget.

(* ================================================================== *)
(** * The context assembler with the integers of numpy *)
(* ================================================================== *)

Module ContextInt64Facts.
Import PyStr Context ContextFacts.

Local Open Scope Z_scope.

Lemma wrap_int64_in_range (z : Z) :
  - 2 ^ 63 <= z < 2 ^ 63 -> ContextInt64.wrap_int64 z = z.
Proof.
  intros H. unfold ContextInt64.wrap_int64.
  rewrite Z.mod_small by lia. lia.
Qed.

(** Whatever the token counts, the loop takes the first pages of the
    frame. *)
Lemma choose_int64_prefix (budget : Z) (pages : list page) :
  forall st,
  exists k,
    (k <= List.length pages)%nat
    /\ chosen_pages_content (ContextInt64.choose budget pages st)
       = (chosen_pages_content st
            ++ map page_content (firstn k pages))%list.
Proof.
  induction pages as [|p rest IH]; intros st; cbn [ContextInt64.choose].
  - exists 0%nat. cbn. now rewrite app_nil_r.
  - destruct (_ >? _).
    + exists 0%nat. cbn. rewrite app_nil_r. split; [lia | reflexivity].
    + destruct (IH (mkChosen
                      (chosen_pages_content st ++ [page_content p])%list
                      (ContextInt64.add_int64 (sum_tokens_chosen st)
                         (ContextInt64.add_int64 (num_tokens p) 4))))
        as (k & Hk & Hc).
      exists (S k). cbn [firstn map List.length chosen_pages_content] in *.
      split; [lia|]. rewrite Hc, <- app_assoc. reflexivity.
Qed.

Lemma tokens_nonneg (pages : list page) :
  Forall (fun page => 0 <= num_tokens page) pages ->
  0 <= tokens_with_separators pages.
Proof.
  induction 1 as [|p ps Hp _ IH]; [reflexivity|].
  rewrite tokens_with_separators_cons. lia.
Qed.

(** While no sum reaches [2^63], the additions on 64 bits are those of
    the integers. *)
Lemma choose_int64_exact (budget : Z) (pages : list page) :
  Forall (fun page => 0 <= num_tokens page) pages ->
  forall st,
    0 <= sum_tokens_chosen st ->
    sum_tokens_chosen st + tokens_with_separators pages < 2 ^ 63 ->
    ContextInt64.choose budget pages st = Context.choose budget pages st.
Proof.
  induction 1 as [|p rest Hp Hrest IH]; intros st H0 Hmax;
    cbn [ContextInt64.choose Context.choose]; [reflexivity|].
  rewrite tokens_with_separators_cons in Hmax.
  pose proof (tokens_nonneg rest Hrest) as Hnn.
  unfold ContextInt64.add_int64.
  rewrite (wrap_int64_in_range (num_tokens p + 4)) by lia.
  rewrite !wrap_int64_in_range by lia.
  destruct (_ >? _); [reflexivity|].
  apply IH; cbn [sum_tokens_chosen]; lia.
Qed.

(** The sums of the program do wrap: after a page of [2^63 - 3] tokens
    the running sum is negative, and a second page is taken under a
    budget that the first page alone nearly fills. *)
Example running_sum_wraps :
  let a := mkPage "SYS" "a" "A" "wiki/a" (2 ^ 63 - 3) in
  let b := mkPage "SYS" "b" "B" "wiki/b" 10 in
  ContextInt64.choose (2 ^ 63 - 1) [a; b] (mkChosen [] 0)
  = mkChosen ["A"; "B"] (- 2 ^ 63 + 15).
Proof. reflexivity. Qed.

(** C5, the statement of the specification fails: a single page of 3490
    tokens fits the configured budget of 3490 (the test of line 148 does
    not count its separator) and is chosen, and the sum of its tokens
    and the separator overhead is 3494. *)
Lemma chosen_sum_exceeds_budget :
  let pages := [mkPage "SYS" "VPN" "Anleitung" "wiki/1" 3490] in
  ContextInt64.choose configured_max_tokens_per_context pages (mkChosen [] 0)
  = mkChosen ["Anleitung"] 3494
  /\ tokens_with_separators pages = 3494
  /\ ~ (tokens_with_separators pages <= configured_max_tokens_per_context).
Proof. cbv zeta. repeat split; try reflexivity. vm_compute. congruence. Qed.

(** C5 (amended).  For every frame of ranked pages and every budget,
    the pages chosen are a prefix of the frame, in order.  When no page
    has a negative token count and the token counts of the frame, with
    the separator overhead of every page, sum to less than [2^63], so
    that the 64-bit sums of the program do not wrap: the loop chooses as
    it would with the unbounded integers; the running sum is the sum of
    the tokens and overheads of the chosen pages; the loop stops at the
    first page that does not fit; and when some page is chosen, the
    tokens of the chosen pages plus one overhead for each of them but
    the last do not exceed the budget. *)
Theorem context_is_prefix_within_budget
    (max_tokens_per_context : Z) (query : string) (pages_df : list page) :
  exists k,
    (k <= List.length pages_df)%nat
    /\ let st :=
         ContextInt64.choose max_tokens_per_context pages_df (mkChosen [] 0)
       in
       let selected := firstn k pages_df in
       chosen_pages_content st = map page_content selected
       /\ ContextInt64.get_context max_tokens_per_context query pages_df
          = (context_message
               ++ join (Chunker.LF ++ Chunker.LF)
                    (map page_content selected))%string
       /\ (Forall (fun page => 0 <= num_tokens page) pages_df ->
           tokens_with_separators pages_df < 2 ^ 63 ->
           st = Context.choose max_tokens_per_context pages_df
                  (mkChosen [] 0)
           /\ sum_tokens_chosen st = tokens_with_separators selected
           /\ (selected <> [] ->
               tokens_with_separators selected - 4
               <= max_tokens_per_context)
           /\ (forall page,
                 nth_error pages_df k = Some page ->
                 tokens_with_separators selected + num_tokens page
                 > max_tokens_per_context)).
Proof.
  destruct (choose_int64_prefix max_tokens_per_context pages_df
              (mkChosen [] 0)) as (k & Hk & Hc).
  cbn [chosen_pages_content app] in Hc.
  exists k. split; [exact Hk|]. cbv zeta.
  split; [exact Hc|].
  split; [unfold ContextInt64.get_context; rewrite Hc; reflexivity|].
  intros Hnn Hmax.
  assert (ContextInt64.choose max_tokens_per_context pages_df (mkChosen [] 0)
          = Context.choose max_tokens_per_context pages_df (mkChosen [] 0))
    as E.
  { apply choose_int64_exact; cbn [sum_tokens_chosen]; [exact Hnn | lia | lia]. }
  rewrite E in *.
  destruct (choose_prefix max_tokens_per_context pages_df (mkChosen [] 0))
    as (k' & Hk' & Hc' & Hs & Hb & Hn).
  cbn [chosen_pages_content sum_tokens_chosen app] in Hc', Hs.
  assert (k' = k) as ->.
  { rewrite Hc in Hc'. apply (f_equal (@List.length _)) in Hc'.
    rewrite !length_map, !length_firstn in Hc'. lia. }
  split; [reflexivity|]. split; [rewrite Hs; lia|]. split.
  - intros Hne. rewrite Hs, Z.add_0_l in Hb. apply Hb.
    intros ->. now apply Hne.
  - intros page Hp. specialize (Hn page Hp). rewrite Hs in Hn. lia.
Qed.

Lemma context_is_prefix_within_budget_witness :
  let page title := mkPage "SYS" title title "wiki" 1000 in
  let pages_df := [page "a"; page "b"; page "c"] in
  exists k,
    (k <= List.length pages_df)%nat
    /\ chosen_pages_content
         (ContextInt64.choose 2500 pages_df (mkChosen [] 0))
       = map page_content (firstn k pages_df)
    /\ sum_tokens_chosen (ContextInt64.choose 2500 pages_df (mkChosen [] 0))
       = tokens_with_separators (firstn k pages_df)
    /\ (firstn k pages_df <> [] ->
        tokens_with_separators (firstn k pages_df) - 4 <= 2500)
    /\ (forall page,
          nth_error pages_df k = Some page ->
          tokens_with_separators (firstn k pages_df) + num_tokens page
          > 2500).
Proof.
  cbv zeta.
  destruct (context_is_prefix_within_budget 2500 "Wie?"
              [mkPage "SYS" "a" "a" "wiki" 1000;
               mkPage "SYS" "b" "b" "wiki" 1000;
               mkPage "SYS" "c" "c" "wiki" 1000])
    as (k & Hk & Hc & _ & H).
  exists k. split; [exact Hk|]. split; [exact Hc|].
  apply (fun Hnn Hmax => proj2 (H Hnn Hmax)).
  - repeat constructor; discriminate.
  - reflexivity.
Defined.

End ContextInt64Facts.

(* ================================================================== *)
(** * The page chunker: further properties *)
(* ================================================================== *)

Module ChunkerMore.
Import PyStr PyStrFacts Chunker ChunkerFacts.

Local Open Scope Z_scope.

Section Loop.

Variable marker : string.
Variables min_part_size max_part_size : Z.
Hypothesis marker_nonempty : marker <> ""%string.

Local Abbreviation loop_body :=
  (loop_body marker min_part_size max_part_size).

Lemma append_marker_nonempty (a b : string) :
  ((a ++ (b ++ marker)) =? "")%string = false.
Proof.
  apply String.eqb_neq. intros H. apply (f_equal String.length) in H.
  rewrite !length_append in H. cbn in H.
  destruct marker; [now apply marker_nonempty | cbn in H; lia].
Qed.

(** After an iteration, flushing gives one part more than were in
    [result] before it. *)
Lemma finish_loop_body (st : state) (split : string) :
  List.length (finish (loop_body st split)) = S (List.length (result st)).
Proof.
  unfold Chunker.loop_body, finish.
  destruct (_ <=? _); [|destruct (_ >=? _)]; cbn [result current_part].
  - rewrite append_marker_nonempty, length_app. cbn. lia.
  - cbn [String.eqb]. rewrite length_app. cbn. lia.
  - cbn [String.eqb]. rewrite length_app. cbn. lia.
Qed.

Lemma result_le_finish (st : state) :
  (List.length (result st) <= List.length (finish st))%nat.
Proof.
  unfold finish. destruct (_ =? _)%string; [lia|].
  rewrite length_app. lia.
Qed.

Lemma finish_fold_le (splits : list string) :
  forall st,
    (List.length (finish (fold_left loop_body splits st))
     <= List.length (finish st) + List.length splits)%nat.
Proof.
  induction splits as [|x xs IH]; intros st; cbn [fold_left List.length].
  - lia.
  - specialize (IH (loop_body st x)). rewrite finish_loop_body in IH.
    pose proof (result_le_finish st). lia.
Qed.

Lemma finish_fold_ge (splits : list string) (st : state) :
  splits <> [] ->
  (1 <= List.length (finish (fold_left loop_body splits st)))%nat.
Proof.
  intros Hne. destruct (exists_last Hne) as (xs & x & ->).
  rewrite fold_left_app. cbn [fold_left]. rewrite finish_loop_body. lia.
Qed.

(** While every test of line 112 passes, the loop only extends the
    accumulator. *)
Lemma fold_all_appended (splits : list string) :
  forall st,
    len (current_part st)
      + len (flatten (map (fun split => split ++ marker)%string splits))
    <= max_part_size ->
    fold_left loop_body splits st
    = mkState (result st)
        (current_part st
           ++ flatten (map (fun split => split ++ marker) splits))%string.
Proof.
  induction splits as [|x xs IH]; intros st H; cbn [fold_left map] in *.
  - cbn. rewrite append_empty_r. now destruct st.
  - change (flatten ((x ++ marker)%string
                       :: map (fun split => (split ++ marker)%string) xs))
      with ((x ++ marker)
              ++ flatten (map (fun split => split ++ marker) xs))%string
      in *.
    rewrite !len_append in H.
    pose proof (len_nonneg
                  (flatten (map (fun split => split ++ marker)%string xs))).
    unfold Chunker.loop_body at 2.
    destruct (_ <=? _) eqn:T; [|apply Z.leb_gt in T; lia].
    rewrite IH; cbn [result current_part].
    + now rewrite !append_assoc.
    + rewrite !len_append. lia.
Qed.

End Loop.


(** X9.  The call raises exactly for the empty marker; otherwise it returns
    at least one part and at most as many parts as the marker cuts the
    text into segments. *)
Theorem parts_between_one_and_segments
    (input marker : string) (min_part_size max_part_size : Z) :
  (split_string_by_markers input marker min_part_size max_part_size = None
   <-> marker = ""%string)
  /\ forall parts,
       split_string_by_markers input marker min_part_size max_part_size
       = Some parts ->
       exists splits,
         split marker input = Some splits
         /\ (1 <= List.length parts <= List.length splits)%nat.
Proof.
  unfold split_string_by_markers. split.
  - rewrite <- (split_none marker input).
    destruct (split marker input); split; congruence.
  - intros parts H.
    destruct (split marker input) as [splits|] eqn:Hs; [|discriminate].
    injection H as <-. exists splits. split; [reflexivity|].
    assert (marker <> ""%string) as Hm.
    { intros E. apply (split_none marker input) in E. congruence. }
    destruct (split_some marker input Hm) as (splits' & Hs' & Hne).
    rewrite Hs in Hs'. injection Hs' as <-.
    split.
    + now apply finish_fold_ge.
    + pose proof (finish_fold_le marker min_part_size max_part_size Hm
                    splits initial) as H.
      cbn in H. exact H.
Qed.

(** X10.  A text that fits, marker included, comes back whole as the only
    part, when the marker has three characters. *)
Theorem text_that_fits_is_one_part
    (input marker : string) (min_part_size max_part_size : Z) :
  String.length marker = 3%nat ->
  len input + len marker <= max_part_size ->
  split_string_by_markers input marker min_part_size max_part_size
  = Some [input].
Proof.
  intros H3 Hfit.
  assert (marker <> ""%string) as Hm by (intros ->; discriminate).
  unfold split_string_by_markers.
  destruct (split_some marker input Hm) as (splits & Hs & Hne).
  rewrite Hs. f_equal.
  assert (flatten (map (fun split => split ++ marker)%string splits)
          = (input ++ marker)%string) as Hflat.
  { rewrite <- join_closed by exact Hne. now rewrite (split_join _ _ _ Hs). }
  unfold run_loop.
  rewrite (fold_all_appended marker min_part_size max_part_size splits initial)
    by (rewrite Hflat, len_append; cbn; lia).
  rewrite Hflat. unfold finish. cbn [result current_part initial append].
  destruct (_ =? _)%string eqn:E.
  - apply String.eqb_eq in E. apply (f_equal String.length) in E.
    rewrite length_append, H3 in E. cbn in E. lia.
  - cbn [app]. f_equal. apply strip3_app. now left.
Qed.

Lemma text_that_fits_is_one_part_witness :
  split_string_by_markers ("a" ++ marker ++ "b") marker 10 30
  = Some [("a" ++ marker ++ "b")%string].
Proof.
  apply (text_that_fits_is_one_part ("a" ++ marker ++ "b") marker 10 30).
  - reflexivity.
  - vm_compute. discriminate.
Defined.

(** X11.  A part flushed on line 117 has at least [min_part_size - 3]
    characters, and a part of the forced append has more than
    [max_part_size - 3]. *)
Theorem part_size_lower_bounds
    (input marker : string) (min_part_size max_part_size : Z)
    (es : list emission) (e : emission) :
  split_trace input marker min_part_size max_part_size = Some es ->
  In e es ->
  match e with
  | Flush _ _ => min_part_size - 3 <= len (part_of marker e)
  | ForcedAppend _ _ => max_part_size - 3 < len (part_of marker e)
  | FinalFlush _ => 0 <= len (part_of marker e)
  end.
Proof.
  intros Htrace Hin.
  pose proof (split_trace_recorded _ _ _ _ _ Htrace) as Hrec.
  rewrite Forall_forall in Hrec. specialize (Hrec e Hin).
  assert (forall s, len s - 3 <= len (strip3 s)) as Hstrip.
  { intros s. unfold len. rewrite strip3_length. lia. }
  unfold part_of. specialize (Hstrip (accumulated marker e)).
  destruct e as [acc split | acc split | acc]; cbn in *.
  - destruct Hrec as (_ & Hmin & _). lia.
  - destruct Hrec as (Ho & _ & _). unfold overflows in Ho.
    rewrite !len_append in Hstrip. lia.
  - apply len_nonneg.
Qed.

Lemma part_size_lower_bounds_witness :
  match ForcedAppend ("ab" ++ marker) "cdefghijklmnop" with
  | Flush _ _ =>
      10 - 3
      <= len (part_of marker (ForcedAppend ("ab" ++ marker) "cdefghijklmnop"))
  | ForcedAppend _ _ =>
      12 - 3
      < len (part_of marker (ForcedAppend ("ab" ++ marker) "cdefghijklmnop"))
  | FinalFlush _ =>
      0 <= len (part_of marker (ForcedAppend ("ab" ++ marker) "cdefghijklmnop"))
  end.
Proof.
  apply (part_size_lower_bounds
           ("ab" ++ marker ++ "cdefghijklmnop") marker 10 12
           [ForcedAppend ("ab" ++ marker) "cdefghijklmnop"]).
  - reflexivity.
  - left. reflexivity.
Defined.

(** X12.  For a marker of three characters, a call that never reaches the
    flush of line 117 loses nothing: the returned parts, joined by the
    marker, are the input text. *)
Theorem roundtrip_when_nothing_is_flushed
    (input marker : string) (min_part_size max_part_size : Z)
    (es : list emission) :
  String.length marker = 3%nat ->
  split_trace input marker min_part_size max_part_size = Some es ->
  (forall e, In e es -> is_flush e = false) ->
  split_string_by_markers input marker min_part_size max_part_size
  = Some (map (part_of marker) es)
  /\ join marker (map (part_of marker) es) = input.
Proof.
  intros H3 Htrace Hnf.
  exact (roundtrip_without_flush input marker min_part_size max_part_size
           es H3 Htrace Hnf).
Qed.

Lemma roundtrip_when_nothing_is_flushed_witness :
  let input := ("ab" ++ marker ++ "cdefghijklmnop" ++ marker ++ "q")%string in
  let es :=
    [ForcedAppend ("ab" ++ marker) "cdefghijklmnop";
     FinalFlush ("q" ++ marker)] in
  split_string_by_markers input marker 10 12
  = Some (map (part_of marker) es)
  /\ join marker (map (part_of marker) es) = input.
Proof.
  cbv zeta.
  apply (roundtrip_when_nothing_is_flushed
           ("ab" ++ marker ++ "cdefghijklmnop" ++ marker ++ "q") marker 10 12).
  - reflexivity.
  - reflexivity.
  - intros e [<- | [<- | []]]; reflexivity.
Defined.

End ChunkerMore.

(* ================================================================== *)
(** * The table splitter: the groups one by one *)
(* ================================================================== *)

Module TablesMore.
Import Tables TablesFacts.

Local Open Scope Z_scope.

(** The values of the range, one by one: the [k]-th is [k] steps after
    the start, it is below [stop], and when another value follows, so
    is the next multiple. *)
Lemma range_loop_nth (stop step : Z) (fuel : nat) :
  0 < step ->
  forall i k x,
    stop - i <= Z.of_nat fuel ->
    nth_error (range_loop fuel i stop step) k = Some x ->
    x = i + Z.of_nat k * step
    /\ x < stop
    /\ ((S k < List.length (range_loop fuel i stop step))%nat ->
        x + step < stop).
Proof.
  intros Hstep. induction fuel as [|fuel IH]; intros i k x Hfuel Hnth.
  - destruct k; discriminate.
  - cbn [range_loop] in *. destruct (i <? stop) eqn:T.
    + apply Z.ltb_lt in T. destruct k as [|k].
      * injection Hnth as <-. split; [lia|]. split; [exact T|].
        intros Hlen. cbn [List.length] in Hlen.
        destruct fuel as [|fuel']; [cbn in Hlen; lia|].
        cbn [range_loop] in Hlen.
        destruct (i + step <? stop) eqn:T'; [|cbn in Hlen; lia].
        now apply Z.ltb_lt in T'.
      * cbn [nth_error] in Hnth.
        destruct (IH (i + step) k x ltac:(lia) Hnth) as (Hx & Hlt & Hnext).
        split; [lia|]. split; [exact Hlt|].
        intros Hlen. apply Hnext. cbn [List.length] in Hlen. lia.
    + destruct k; discriminate.
Qed.

Lemma range_loop_empty (stop step : Z) (fuel : nat) :
  range_loop fuel 0 stop step = [] <-> (fuel = 0%nat \/ stop <= 0).
Proof.
  destruct fuel as [|fuel]; cbn [range_loop].
  - split; [now left | reflexivity].
  - destruct (0 <? stop) eqn:T.
    + apply Z.ltb_lt in T. split; [discriminate | intros [H | H]; lia].
    + apply Z.ltb_ge in T. split; [now right | reflexivity].
Qed.

(** X13.  For a positive limit, the [i]-th group of [split_table] holds the
    rows [i * L] to [i * L + L] of the table: no group is empty, no
    group has more than [L] rows, and every group that is followed by
    another has exactly [L] rows. *)
Theorem split_table_group_sizes
    (L : Z) (table_df : DataFrame) (groups : list DataFrame)
    (i : nat) (g : DataFrame) :
  0 < L ->
  split_table L table_df = Some groups ->
  nth_error groups i = Some g ->
  rows g
  = firstn (Z.to_nat L) (skipn (i * Z.to_nat L) (rows table_df))
  /\ 1 <= df_len g <= L
  /\ ((S i < List.length groups)%nat -> df_len g = L).
Proof.
  intros HL Hsplit Hnth.
  rewrite (split_table_some L table_df HL) in Hsplit.
  injection Hsplit as <-.
  set (starts := range_loop _ _ _ _) in *.
  rewrite !nth_error_map in Hnth.
  destruct (nth_error starts i) as [x|] eqn:Hx; [|discriminate].
  cbn [option_map] in Hnth. injection Hnth as <-.
  destruct (range_loop_nth (df_len table_df) L
              (Z.to_nat (df_len table_df)) HL 0 i x
              ltac:(unfold df_len; lia) Hx) as (Ex & Hlt & Hnext).
  cbn [concat_header df_slice rows]. unfold df_len in *.
  cbn [concat_header df_slice rows].
  replace (Z.to_nat (x + L - x)) with (Z.to_nat L) by lia.
  replace (Z.to_nat x) with (i * Z.to_nat L)%nat by lia.
  split; [reflexivity|].
  rewrite length_firstn, length_skipn.
  split; [lia|].
  intros Hlen. rewrite !length_map in Hlen. specialize (Hnext Hlen). lia.
Qed.

Lemma split_table_group_sizes_witness :
  let table_df := mkDataFrame ["key"; "value"] (repeat ["k"; "v"] 61) in
  let g := mkDataFrame ["key"; "value"] (repeat ["k"; "v"] 30) in
  rows g
  = firstn (Z.to_nat 30) (skipn (1 * Z.to_nat 30) (rows table_df))
  /\ 1 <= df_len g <= 30
  /\ ((2 < List.length
             [g; g; mkDataFrame ["key"; "value"] (repeat ["k"; "v"] 1)])%nat ->
      df_len g = 30).
Proof.
  cbv zeta.
  apply (split_table_group_sizes 30
           (mkDataFrame ["key"; "value"] (repeat ["k"; "v"] 61))
           [mkDataFrame ["key"; "value"] (repeat ["k"; "v"] 30);
            mkDataFrame ["key"; "value"] (repeat ["k"; "v"] 30);
            mkDataFrame ["key"; "value"] (repeat ["k"; "v"] 1)]
           1).
  - reflexivity.
  - reflexivity.
  - reflexivity.
Defined.

(** X14.  [split_table] raises exactly for a limit of 0; for a negative limit
    it returns no group, whatever the table; for a positive limit it
    returns no group exactly for a table without rows. *)
Theorem split_table_edge_cases (L : Z) (table_df : DataFrame) :
  (split_table L table_df = None <-> L = 0)
  /\ (L < 0 -> split_table L table_df = Some [])
  /\ (0 < L -> (split_table L table_df = Some [] <-> rows table_df = [])).
Proof.
  split; [|split].
  - unfold split_table, range0. destruct (L =? 0) eqn:E.
    + apply Z.eqb_eq in E. tauto.
    + apply Z.eqb_neq in E. destruct (L <? 0); split; congruence.
  - intros H. unfold split_table, range0.
    destruct (L =? 0) eqn:E; [apply Z.eqb_eq in E; lia|].
    destruct (L <? 0) eqn:N; [reflexivity | apply Z.ltb_ge in N; lia].
  - intros H. rewrite (split_table_some L table_df H). split.
    + intros E. injection E as E.
      apply map_eq_nil in E. apply map_eq_nil in E.
      apply range_loop_empty in E. unfold df_len in E.
      destruct (rows table_df); [reflexivity | cbn in E; lia].
    + intros E. unfold df_len. rewrite E. reflexivity.
Qed.

End TablesMore.

(* ================================================================== *)
(** * Rendering a table *)
(* ================================================================== *)

Module RenderFacts.
Import PyStr PyStrFacts Tables TablesFacts Render.

Lemma is_blank_true (c : ascii) : is_blank c = true -> c = blank.
Proof. apply Ascii.eqb_eq. Qed.

(** What [collapse_from] returns has no third blank in a row, counting
    the (at most two) blanks already written. *)
Lemma collapse_from_spaced (s : string) :
  forall run, spaced (Nat.min run 2) (collapse_from run s).
Proof.
  induction s as [|c s IH]; intros run; cbn [collapse_from]; [exact I|].
  destruct (is_blank c) eqn:B.
  - destruct (run <? 2)%nat eqn:R.
    + apply Nat.ltb_lt in R. cbn [spaced]. rewrite B. split; [lia|].
      specialize (IH (S run)).
      replace (Nat.min (S run) 2) with (S (Nat.min run 2)) in IH by lia.
      exact IH.
    + apply Nat.ltb_ge in R. specialize (IH (S run)).
      replace (Nat.min (S run) 2) with (Nat.min run 2) in IH by lia.
      exact IH.
  - cbn [spaced]. rewrite B. apply (IH 0%nat).
Qed.

(** A text without a third blank in a row is left as it is. *)
Lemma collapse_from_fixed (s : string) :
  forall run, spaced run s -> collapse_from run s = s.
Proof.
  induction s as [|c s IH]; intros run H; cbn [collapse_from spaced] in *;
    [reflexivity|].
  destruct (is_blank c).
  - destruct H as [R H]. apply Nat.ltb_lt in R. rewrite R.
    f_equal. now apply IH.
  - f_equal. now apply IH.
Qed.

Lemma spaced_no_three (before after : string) :
  forall run,
    ~ spaced run
        (before ++ String blank (String blank (String blank after))).
Proof.
  induction before as [|c before IH]; intros run H.
  - cbn in H. lia.
  - cbn [append spaced] in H. destruct (is_blank c).
    + destruct H as [_ H]. exact (IH _ H).
    + exact (IH _ H).
Qed.

Lemma has_three_blanks_cons (c : ascii) (s : string) :
  has_three_blanks s -> has_three_blanks (String c s).
Proof.
  intros (before & after & ->). exists (String c before), after. reflexivity.
Qed.

Lemma no_three_spaced (s : string) :
  forall run,
    (run <= 2)%nat -> ~ has_three_blanks (blanks run ++ s) -> spaced run s.
Proof.
  induction s as [|c s IH]; intros run Hrun H; cbn [spaced]; [exact I|].
  assert (forall n t, (blanks n ++ String blank t)%string
                      = (blanks (S n) ++ t)%string) as Hshift.
  { induction n as [|n IHn]; intros t; cbn; [reflexivity|].
    f_equal. apply IHn. }
  destruct (is_blank c) eqn:B.
  - apply is_blank_true in B. subst c. rewrite Hshift in H. split.
    + destruct (Nat.eq_dec run 2) as [->|]; [|lia].
      exfalso. apply H. exists "", s. reflexivity.
    + destruct (Nat.eq_dec run 2) as [->|].
      * exfalso. apply H. exists "", s. reflexivity.
      * apply IH; [lia | exact H].
  - apply (IH 0%nat); [lia|]. cbn [blanks append]. intros H3. apply H.
    clear - H3. induction run as [|n IHn]; cbn [blanks append].
    + now apply has_three_blanks_cons.
    + now apply has_three_blanks_cons.
Qed.

(** A blank run ends at a character that is not a blank: the text after
    it is collapsed on its own. *)
Lemma collapse_from_app (a b : string) (c : ascii) :
  is_blank c = false ->
  forall run,
    collapse_from run (a ++ String c b)
    = (collapse_from run a ++ String c (collapse_from 0 b))%string.
Proof.
  intros Hc. induction a as [|x a IH]; intros run;
    cbn [append collapse_from].
  - now rewrite Hc.
  - destruct (is_blank x); [destruct (run <? 2)%nat|];
      cbn [append]; now rewrite IH.
Qed.

Lemma collapse_heading (text : string) :
  collapse_blanks (heading ++ text) = (heading ++ collapse_blanks text)%string.
Proof. reflexivity. Qed.

Section Rendering.

Variable read_html : string -> option DataFrame.
Variable to_markdown : DataFrame -> string.
Variable max_rows_per_table : Z.

Local Abbreviation piece table_df :=
  (Chunker.LF ++ heading ++ to_markdown table_df)%string.
Local Abbreviation collapsed_piece table_df :=
  (Chunker.LF ++ heading ++ collapse_blanks (to_markdown table_df))%string.

Lemma flatten_cons (x : string) (xs : list string) :
  flatten (x :: xs) = (x ++ flatten xs)%string.
Proof. reflexivity. Qed.

Lemma render_groups_flatten (table_dfs : list DataFrame) :
  forall text,
    fold_left
      (fun table_text table_df => (table_text ++ piece table_df)%string)
      table_dfs text
    = (text ++ flatten (map (fun table_df => piece table_df) table_dfs))%string.
Proof.
  induction table_dfs as [|df dfs IH]; intros text; cbn [fold_left map].
  - cbn. now rewrite append_empty_r.
  - rewrite IH, flatten_cons. now rewrite append_assoc.
Qed.

Lemma collapse_piece (text : string) (table_df : DataFrame) :
  forall run,
    collapse_from run (text ++ piece table_df)
    = (collapse_from run text ++ collapsed_piece table_df)%string.
Proof.
  intros run.
  change (piece table_df)
    with (String (ascii_of_nat 10) (heading ++ to_markdown table_df)).
  rewrite collapse_from_app by reflexivity.
  fold (collapse_blanks (heading ++ to_markdown table_df)).
  now rewrite collapse_heading.
Qed.

Lemma collapse_groups (table_dfs : list DataFrame) :
  forall run text,
    collapse_from run
      (text ++ flatten (map (fun table_df => piece table_df) table_dfs))
    = (collapse_from run text
         ++ flatten
              (map (fun table_df => collapsed_piece table_df) table_dfs))%string.
Proof.
  induction table_dfs as [|df dfs IH]; intros run text; cbn [map].
  - cbn. now rewrite !append_empty_r.
  - rewrite !flatten_cons, <- append_assoc, IH, collapse_piece.
    now rewrite append_assoc.
Qed.

End Rendering.

Lemma collapse_from_drop_blanks (s : string) :
  forall run,
    drop_blanks (collapse_from run s) = drop_blanks s
    /\ (String.length (collapse_from run s) <= String.length s)%nat.
Proof.
  induction s as [|c s IH]; intros run; cbn [collapse_from drop_blanks];
    [split; reflexivity|].
  destruct (is_blank c) eqn:B.
  - destruct (run <? 2)%nat; cbn [drop_blanks String.length];
      rewrite ?B; destruct (IH (S run)) as [E L]; split; try exact E; lia.
  - cbn [drop_blanks String.length]. rewrite B.
    destruct (IH 0%nat) as [E L]. split; [now rewrite E | lia].
Qed.

(** X15.  The substitution of line 99 leaves a text as it is exactly when the
    text has no three blanks in a row; its result never has three blanks
    in a row, so applying it twice is applying it once. *)
Theorem collapse_blanks_fixed_point (s : string) :
  (collapse_blanks s = s <-> ~ has_three_blanks s)
  /\ ~ has_three_blanks (collapse_blanks s)
  /\ collapse_blanks (collapse_blanks s) = collapse_blanks s.
Proof.
  assert (forall t, ~ has_three_blanks (collapse_blanks t)) as Hno.
  { intros t (before & after & E).
    pose proof (collapse_from_spaced t 0) as H. cbn [Nat.min] in H.
    fold (collapse_blanks t) in H. rewrite E in H.
    exact (spaced_no_three _ _ _ H). }
  split; [|split].
  - split.
    + intros E. rewrite <- E. apply Hno.
    + intros H. apply collapse_from_fixed.
      apply no_three_spaced; [lia | exact H].
  - apply Hno.
  - apply collapse_from_fixed. apply (collapse_from_spaced s 0).
Qed.

(** X16.  The substitution of line 99 only takes blanks away: without the
    blanks, the text before and the text after are the same, and the
    text after is not longer. *)
Theorem collapse_blanks_only_drops_blanks (s : string) :
  drop_blanks (collapse_blanks s) = drop_blanks s
  /\ (String.length (collapse_blanks s) <= String.length s)%nat.
Proof. apply collapse_from_drop_blanks. Qed.

(** X17.  Whatever pandas renders, the text that [replace_table] returns has
    no three blanks in a row. *)
Theorem replace_table_no_three_blanks
    (read_html : string -> option DataFrame)
    (to_markdown : DataFrame -> string) (max_rows_per_table : Z)
    (table_html text : string) :
  replace_table read_html to_markdown max_rows_per_table table_html
  = Some text ->
  ~ has_three_blanks text.
Proof.
  unfold replace_table. intros H (before & after & E).
  assert (exists t, text = collapse_blanks t) as [t Ht].
  { destruct (read_html table_html) as [df|]; [|discriminate].
    destruct (_ >? _)%Z.
    - destruct (split_table _ _); [|discriminate].
      injection H as <-. eauto.
    - injection H as <-. eauto. }
  pose proof (collapse_from_spaced t 0) as S. cbn [Nat.min] in S.
  fold (collapse_blanks t) in S. rewrite <- Ht, E in S.
  exact (spaced_no_three _ _ _ S).
Qed.

Lemma replace_table_no_three_blanks_witness :
  let read_html := fun _ : string =>
    Some (mkDataFrame ["key"] [["a     b"]]) in
  let to_markdown := fun df : DataFrame =>
    flatten (map (fun row => ("||" ++ flatten row ++ "||")%string) (rows df)) in
  ~ has_three_blanks
      (Chunker.marker ++ " Tabelle:" ++ Chunker.LF ++ "||a  b||").
Proof.
  cbv zeta.
  apply (replace_table_no_three_blanks
           (fun _ => Some (mkDataFrame ["key"] [["a     b"]]))
           (fun df =>
              flatten
                (map (fun row => ("||" ++ flatten row ++ "||")%string)
                     (rows df)))
           30 "<table></table>").
  reflexivity.
Defined.

(** X18.  For a positive row limit and a text in which pandas finds a table,
    [replace_table] returns, for each frame that [tables_to_render]
    gives, in order, the heading ['\n## Tabelle:\n'] and the rendering
    of the frame with its runs of blanks collapsed; when the table is
    split, a line feed more stands before each heading. *)
Theorem replace_table_text
    (read_html : string -> option DataFrame)
    (to_markdown : DataFrame -> string) (max_rows_per_table : Z)
    (table_html : string) (table_df : DataFrame) :
  (0 < max_rows_per_table)%Z ->
  read_html table_html = Some table_df ->
  exists frames,
    tables_to_render max_rows_per_table table_df = Some frames
    /\ replace_table read_html to_markdown max_rows_per_table table_html
       = Some
           (flatten
              (map (fun frame =>
                      ((if (df_len table_df >? max_rows_per_table)%Z
                        then Chunker.LF else "")
                         ++ heading
                         ++ collapse_blanks (to_markdown frame))%string)
                   frames)).
Proof.
  intros HL Hread. unfold replace_table, tables_to_render. rewrite Hread.
  destruct (df_len table_df >? max_rows_per_table)%Z.
  - rewrite (split_table_some max_rows_per_table table_df HL).
    eexists. split; [reflexivity|]. f_equal.
    unfold render_groups. rewrite render_groups_flatten.
    unfold collapse_blanks at 1. rewrite collapse_groups. reflexivity.
  - exists [table_df]. split; [reflexivity|]. f_equal.
    cbn [map flatten fold_right append].
    rewrite collapse_heading. now rewrite append_empty_r.
Qed.

Lemma replace_table_text_witness :
  let read_html := fun _ : string =>
    Some (mkDataFrame ["key"] [["a     b"]]) in
  let to_markdown := fun df : DataFrame =>
    flatten (map (fun row => ("||" ++ flatten row ++ "||")%string) (rows df)) in
  let table_df := mkDataFrame ["key"] [["a     b"]] in
  exists frames,
    tables_to_render 30 table_df = Some frames
    /\ replace_table read_html to_markdown 30 "<table></table>"
       = Some
           (flatten
              (map (fun frame =>
                      ((if (df_len table_df >? 30)%Z
                        then Chunker.LF else "")
                         ++ heading
                         ++ collapse_blanks (to_markdown frame))%string)
                   frames)).
Proof.
  cbv zeta.
  apply (replace_table_text
           (fun _ => Some (mkDataFrame ["key"] [["a     b"]]))
           (fun df =>
              flatten
                (map (fun row => ("||" ++ flatten row ++ "||")%string)
                     (rows df)))
           30 "<table></table>" (mkDataFrame ["key"] [["a     b"]])).
  - reflexivity.
  - reflexivity.
Defined.

End RenderFacts.

(* ================================================================== *)
(** * Fetching, filtering and splitting pages *)
(* ================================================================== *)

Module PagesFacts.
Import PyStr PyStrFacts Chunker Context Pages.

(** ** The pagination of [get_confluence_pages] *)

Section Fetching.

Variable all : list raw_page.
Variable get_all_pages_from_space : nat -> list raw_page.

(** The API serves the pages of the space in batches of at most 100,
    from the position asked for. *)
Hypothesis batches :
  forall start,
    get_all_pages_from_space start = firstn limit (skipn start all).

Lemma fetch_loop_batches (fuel : nat) :
  forall start pages,
    fetch_loop get_all_pages_from_space fuel start pages
    = if (List.length all - start <? limit * fuel)%nat
      then Some (pages ++ skipn start all)%list
      else None.
Proof.
  induction fuel as [|fuel IH]; intros start pages; cbn [fetch_loop].
  - rewrite Nat.mul_0_r. reflexivity.
  - rewrite batches.
    pose proof (length_skipn start all) as Hs.
    rewrite length_firstn, Hs.
    destruct (Nat.min limit (List.length all - start) <? limit)%nat eqn:T.
    + apply Nat.ltb_lt in T.
      rewrite firstn_all2 by lia.
      destruct (_ <? limit * S fuel)%nat eqn:F; [reflexivity|].
      apply Nat.ltb_ge in F. unfold limit in *. lia.
    + apply Nat.ltb_ge in T. rewrite IH.
      replace (List.length all - (start + limit) <? limit * fuel)%nat
        with (List.length all - start <? limit * S fuel)%nat.
      * destruct (_ <? _)%nat; [|reflexivity].
        rewrite <- app_assoc. do 2 f_equal.
        rewrite Nat.add_comm, <- skipn_skipn. apply firstn_skipn.
      * unfold limit in *.
        destruct (List.length all - start <? 100 * S fuel)%nat eqn:A;
          destruct (List.length all - (start + 100) <? 100 * fuel)%nat eqn:B;
          try reflexivity;
          [apply Nat.ltb_lt in A; apply Nat.ltb_ge in B
          |apply Nat.ltb_ge in A; apply Nat.ltb_lt in B]; lia.
Qed.

End Fetching.

(** X19.  When the API serves a space of [N] pages in batches of at most 100
    from the position asked for, the loop of [get_confluence_pages]
    returns all the pages, in order, each once, after [N / 100 + 1]
    requests (one more than needed when [N] is a multiple of 100), and
    is still asking before that. *)
Theorem get_confluence_pages_collects_all
    (all : list raw_page) (get_all_pages_from_space : nat -> list raw_page)
    (fuel : nat) :
  (forall start,
     get_all_pages_from_space start = firstn limit (skipn start all)) ->
  get_confluence_pages get_all_pages_from_space fuel
  = if (List.length all / limit <? fuel)%nat then Some all else None.
Proof.
  intros H. unfold get_confluence_pages.
  rewrite (fetch_loop_batches all get_all_pages_from_space H).
  rewrite Nat.sub_0_r. cbn [app skipn].
  replace (List.length all / limit <? fuel)%nat
    with (List.length all <? limit * fuel)%nat; [reflexivity|].
  unfold limit.
  pose proof (Nat.div_mod_eq (List.length all) 100) as D.
  pose proof (Nat.mod_upper_bound (List.length all) 100 ltac:(lia)) as M.
  destruct (List.length all <? 100 * fuel)%nat eqn:A;
    destruct (List.length all / 100 <? fuel)%nat eqn:B; try reflexivity;
    [apply Nat.ltb_lt in A; apply Nat.ltb_ge in B
    |apply Nat.ltb_ge in A; apply Nat.ltb_lt in B]; nia.
Qed.

Lemma get_confluence_pages_collects_all_witness :
  let page := mkRawPage "1" "VPN" "<p>...</p>" in
  let api := fun start => firstn limit (skipn start (repeat page 250)) in
  get_confluence_pages api 3
  = if (List.length (repeat page 250) / limit <? 3)%nat
    then Some (repeat page 250) else None.
Proof.
  cbv zeta.
  apply (get_confluence_pages_collects_all
           (repeat (mkRawPage "1" "VPN" "<p>...</p>") 250)
           (fun start =>
              firstn limit
                (skipn start (repeat (mkRawPage "1" "VPN" "<p>...</p>") 250)))
           3).
  intros start. reflexivity.
Defined.

(** X20.  The loop only stops on a batch of fewer than 100 pages: with an API
    that answers every request with 100 pages or more, it never
    returns. *)
Theorem get_confluence_pages_needs_short_batch
    (get_all_pages_from_space : nat -> list raw_page) (fuel : nat) :
  (forall start, (limit <= List.length (get_all_pages_from_space start))%nat) ->
  get_confluence_pages get_all_pages_from_space fuel = None.
Proof.
  intros H. unfold get_confluence_pages. generalize 0%nat, (@nil raw_page).
  induction fuel as [|fuel IH]; intros start pages; cbn [fetch_loop].
  - reflexivity.
  - specialize (H start).
    destruct (_ <? limit)%nat eqn:T; [apply Nat.ltb_lt in T; lia|].
    apply IH.
Qed.

Lemma get_confluence_pages_needs_short_batch_witness :
  get_confluence_pages
    (fun _ => repeat (mkRawPage "1" "VPN" "<p>...</p>") 100) 5
  = None.
Proof.
  apply (get_confluence_pages_needs_short_batch
           (fun _ => repeat (mkRawPage "1" "VPN" "<p>...</p>") 100) 5).
  intros start. rewrite repeat_length. unfold limit. lia.
Defined.

(** ** [filter_pages] *)

Lemma re_match_date_prefix (digit : ascii -> bool) (title : string) :
  re_match_date digit title = true <-> has_date_prefix digit title.
Proof.
  unfold re_match_date, date_pattern, has_date_prefix. split.
  - intros H.
    destruct title as [|y1 [|y2 [|y3 [|y4 [|c1 [|m1 [|m2 [|c2 [|d1 [|d2 rest]
      ]]]]]]]]]; cbn [match_classes] in H;
      rewrite ?andb_false_r in H; try discriminate.
    rewrite !andb_true_iff in H.
    destruct H as (Y1 & Y2 & Y3 & Y4 & C1 & M1 & M2 & C2 & D1 & D2 & _).
    apply Ascii.eqb_eq in C1, C2. subst c1 c2.
    exists y1, y2, y3, y4, m1, m2, d1, d2, rest. split; [|reflexivity].
    rewrite !andb_true_iff. tauto.
  - intros (y1 & y2 & y3 & y4 & m1 & m2 & d1 & d2 & rest & H & ->).
    cbn [match_classes]. rewrite !andb_true_iff in *.
    repeat split; try tauto.
Qed.

(** X21.  Whatever the characters that the class [\d] holds,
    [filter_pages] keeps exactly the pages with a body that is not
    empty and a title that does not begin with four characters of the
    class, a dash, two characters of the class, a dash and two
    characters of the class (what follows the first ten characters of
    the title is not looked at, and a date elsewhere in the title does
    not count); filtering twice is filtering once. *)
Theorem filter_pages_keeps (digit : ascii -> bool) (pages : list raw_page) :
  (forall page,
     In page (filter_pages digit pages)
     <-> In page pages
         /\ body page <> ""%string
         /\ ~ has_date_prefix digit (raw_title page))
  /\ filter_pages digit (filter_pages digit pages)
     = filter_pages digit pages.
Proof.
  split.
  - intros page. unfold filter_pages. rewrite filter_In.
    rewrite andb_true_iff, negb_true_iff, Nat.ltb_lt.
    rewrite <- re_match_date_prefix.
    destruct (re_match_date digit (raw_title page)); destruct (body page);
      cbn [String.length]; intuition (try congruence; try lia).
  - unfold filter_pages. induction pages as [|p ps IH]; [reflexivity|].
    cbn [filter]. destruct (_ && _) eqn:E; [|exact IH].
    cbn [filter]. rewrite E. f_equal. exact IH.
Qed.

(** With the digits of ASCII: a page with an empty body and a page
    whose title begins with a date are dropped, a page with a date
    later in its title is kept. *)
Example filter_pages_dated_titles :
  filter_pages ascii_digit
    [mkRawPage "1" "VPN" "";
     mkRawPage "2" "2023-05-17 Protokoll" "<p>a</p>";
     mkRawPage "3" "Protokoll 2023-05-17" "<p>b</p>"]
  = [mkRawPage "3" "Protokoll 2023-05-17" "<p>b</p>"].
Proof. reflexivity. Qed.

(** ** [split_large_pages] *)

Lemma marker_nonempty : marker <> ""%string.
Proof. discriminate. Qed.

Lemma append_cancel_l (a b c : string) :
  (a ++ b)%string = (a ++ c)%string -> b = c.
Proof.
  induction a as [|x a IH]; cbn [append]; intros H; [exact H|].
  injection H as H. now apply IH.
Qed.

Lemma str_of_nat_inj (i j : nat) : str_of_nat i = str_of_nat j -> i = j.
Proof.
  unfold str_of_nat. intros H.
  apply (f_equal NilEmpty.uint_of_string) in H.
  rewrite !NilEmpty.usu in H. injection H as H.
  apply (f_equal Nat.of_uint) in H.
  now rewrite !DecimalNat.Unsigned.of_to in H.
Qed.

Section Tokens.

Variable count_tokens : string -> Z.

Local Abbreviation split_page := (split_page count_tokens).
Local Abbreviation split_loop := (split_loop count_tokens).
Local Abbreviation page_parts := (page_parts count_tokens).

Lemma page_parts_nth (page : page) (content_list : list string) :
  forall i k r,
    nth_error (page_parts page i content_list) k = Some r ->
    exists content_part,
      nth_error content_list k = Some content_part
      /\ r = mkPage (space page)
               (title page ++ " - Teil " ++ str_of_nat (S (i + k)))
               content_part (link page) (count_tokens content_part).
Proof.
  induction content_list as [|part rest IH]; intros i k r H;
    cbn [Pages.page_parts] in H.
  - destruct k; discriminate.
  - destruct k as [|k]; cbn [nth_error] in *.
    + injection H as <-. exists part. rewrite Nat.add_0_r. now split.
    + destruct (IH (S i) k r H) as (part' & Hp & ->).
      exists part'. split; [exact Hp|].
      now replace (S (S i + k)) with (S (i + S k)) by lia.
Qed.

Lemma page_parts_length (page : page) (content_list : list string) :
  forall i,
    List.length (page_parts page i content_list) = List.length content_list.
Proof.
  induction content_list as [|part rest IH]; intros i;
    cbn [Pages.page_parts List.length]; [reflexivity | now rewrite IH].
Qed.




End Tokens.


(** X23.  When no page has more than [max_tokens_per_page] tokens,
    [split_large_pages] returns its input. *)
Theorem split_large_pages_small_pages
    (count_tokens : string -> Z) (pages : list page) :
  Forall (fun page => (num_tokens page <= max_tokens_per_page)%Z) pages ->
  split_large_pages count_tokens pages = Some pages.
Proof.
  intros H. unfold split_large_pages.
  assert (forall split_pages,
            split_loop count_tokens pages split_pages
            = Some (split_pages ++ pages)%list) as G.
  { induction H as [|page rest Hp _ IH]; intros split_pages;
      cbn [split_loop].
    - now rewrite app_nil_r.
    - unfold split_page.
      destruct (_ >? _)%Z eqn:T.
      + rewrite Z.gtb_ltb in T. apply Z.ltb_lt in T. lia.
      + rewrite IH, <- app_assoc. reflexivity. }
  apply (G []).
Qed.

Lemma split_large_pages_small_pages_witness :
  split_large_pages (fun s => Z.of_nat (String.length s))
    [mkPage "SYS" "VPN" "Anleitung" "wiki/1" 9;
     mkPage "SYS" "WLAN" "Hinweise" "wiki/2" 1200]
  = Some [mkPage "SYS" "VPN" "Anleitung" "wiki/1" 9;
          mkPage "SYS" "WLAN" "Hinweise" "wiki/2" 1200].
Proof.
  apply (split_large_pages_small_pages (fun s => Z.of_nat (String.length s))).
  repeat constructor; discriminate.
Defined.

(** X24.  The parts of a page above the token limit: the [k]-th part (from 0)
    holds the [k]-th string that [split_string_by_markers] returned for
    the content of the page, with the configured marker and sizes; it
    has the space and the link of the page, the title of the page
    followed by [' - Teil '] and the number [k + 1], and its token
    count is that of its own content. *)
Theorem split_page_parts
    (count_tokens : string -> Z) (page : page) (parts : list Context.page)
    (k : nat) (part : Context.page) :
  (num_tokens page > max_tokens_per_page)%Z ->
  split_page count_tokens page = Some parts ->
  nth_error parts k = Some part ->
  exists content_list,
    split_string_by_markers (page_content page) marker
      min_characters_per_page max_characters_per_page
    = Some content_list
    /\ List.length parts = List.length content_list
    /\ nth_error content_list k = Some (page_content part)
    /\ space part = space page
    /\ link part = link page
    /\ title part
       = (title page ++ " - Teil " ++ str_of_nat (S k))%string
    /\ num_tokens part = count_tokens (page_content part).
Proof.
  intros Hbig Hsplit Hnth. unfold split_page in Hsplit.
  destruct (_ >? _)%Z eqn:T.
  - destruct (split_string_by_markers _ _ _ _) as [content_list|];
      [|discriminate].
    injection Hsplit as <-. exists content_list.
    destruct (page_parts_nth count_tokens page content_list 0 k part Hnth)
      as (content_part & Hc & ->).
    cbn [space link title num_tokens page_content Nat.add].
    rewrite page_parts_length. repeat split; try reflexivity. exact Hc.
  - rewrite Z.gtb_ltb in T. apply Z.ltb_ge in T. lia.
Qed.

Lemma split_page_parts_witness :
  let page :=
    mkPage "SYS" "VPN" ("a" ++ marker ++ "b") "wiki/1" 1500 in
  let part := mkPage "SYS" "VPN - Teil 1" ("a" ++ marker ++ "b") "wiki/1" 5 in
  exists content_list,
    split_string_by_markers (page_content page) marker
      min_characters_per_page max_characters_per_page
    = Some content_list
    /\ List.length [part] = List.length content_list
    /\ nth_error content_list 0 = Some (page_content part)
    /\ space part = space page
    /\ link part = link page
    /\ title part
       = (title page ++ " - Teil " ++ str_of_nat 1)%string
    /\ num_tokens part
       = (fun s => Z.of_nat (String.length s)) (page_content part).
Proof.
  cbv zeta.
  apply (split_page_parts (fun s => Z.of_nat (String.length s))
           (mkPage "SYS" "VPN" ("a" ++ marker ++ "b") "wiki/1" 1500)
           [mkPage "SYS" "VPN - Teil 1" ("a" ++ marker ++ "b") "wiki/1" 5]
           0).
  - reflexivity.
  - reflexivity.
  - reflexivity.
Defined.

(** X25.  Two parts of a page at different positions have different
    titles. *)
Theorem split_page_titles_differ
    (count_tokens : string -> Z) (page : page) (parts : list Context.page)
    (j k : nat) (part_j part_k : Context.page) :
  j <> k ->
  (num_tokens page > max_tokens_per_page)%Z ->
  split_page count_tokens page = Some parts ->
  nth_error parts j = Some part_j ->
  nth_error parts k = Some part_k ->
  title part_j <> title part_k.
Proof.
  intros Hne Hbig Hsplit Hj Hk Ht. apply Hne. unfold split_page in Hsplit.
  destruct (_ >? _)%Z eqn:T.
  - destruct (split_string_by_markers _ _ _ _) as [content_list|];
      [|discriminate].
    injection Hsplit as <-.
    destruct (page_parts_nth count_tokens page content_list 0 j part_j Hj)
      as (cj & _ & ->).
    destruct (page_parts_nth count_tokens page content_list 0 k part_k Hk)
      as (ck & _ & ->).
    cbn [title Nat.add] in Ht.
    apply append_cancel_l in Ht. apply append_cancel_l in Ht.
    apply str_of_nat_inj in Ht. lia.
  - rewrite Z.gtb_ltb in T. apply Z.ltb_ge in T. lia.
Qed.

(** A page of 1500 tokens whose second section has 4000 characters is
    split in two parts, [VPN - Teil 1] and [VPN - Teil 2]. *)
Lemma split_page_titles_differ_witness :
  ("VPN - Teil 1" <> "VPN - Teil 2")%string.
Proof.
  apply (split_page_titles_differ (fun s => Z.of_nat (String.length s))
           (mkPage "SYS" "VPN"
              ("a" ++ marker ++ Render.blanks 4000 ++ marker ++ "c")
              "wiki/1" 1500)
           [mkPage "SYS" "VPN - Teil 1"
              ("a" ++ marker ++ Render.blanks 4000) "wiki/1" 4004;
            mkPage "SYS" "VPN - Teil 2" "c" "wiki/1" 1]
           0 1
           (mkPage "SYS" "VPN - Teil 1"
              ("a" ++ marker ++ Render.blanks 4000) "wiki/1" 4004)
           (mkPage "SYS" "VPN - Teil 2" "c" "wiki/1" 1)).
  - discriminate.
  - reflexivity.
  - vm_compute. reflexivity.
  - reflexivity.
  - reflexivity.
Defined.

End PagesFacts.

(* ================================================================== *)
(** * From HTML to text *)
(* ================================================================== *)

Module TransformFacts.
Import PyStr PyStrFacts Transform.

Lemma newline_is_space (c : ascii) : is_newline c = true -> is_space c = true.
Proof. intros H. apply Ascii.eqb_eq in H. subst c. reflexivity. Qed.

(** Fewer line feeds before the text ask for less. *)
Lemma tidy_weaken (s : string) :
  forall seen seen', (seen' <= seen)%nat -> tidy seen s -> tidy seen' s.
Proof.
  induction s as [|c s IH]; intros seen seen' Hle; cbn [tidy]; [trivial|].
  destruct (is_newline c).
  - intros [Hlt H]. split; [lia|]. apply (IH (S seen)); [lia | exact H].
  - destruct (is_space c); [|trivial].
    intros [E H]. split; [lia | exact H].
Qed.

Lemma tidy_two_one (s : string) : tidy 2 s -> tidy 1 s.
Proof. apply tidy_weaken. lia. Qed.

(** What [squeeze] writes is tidy: after the two line feeds of a
    replacement, and after a line feed that it copies, no whitespace
    follows. *)
Lemma squeeze_tidy (s : string) :
  tidy 0 (squeeze false s)
  /\ tidy 2 (squeeze true s)
  /\ (match s with
      | EmptyString => True
      | String d _ => is_space d = false
      end -> tidy 2 (squeeze false s)).
Proof.
  induction s as [|c s (IH0 & IH2 & IHn)]; [repeat split|].
  assert (is_space c = false -> is_newline c = false) as Hns.
  { intros H. destruct (is_newline c) eqn:N; [|reflexivity].
    apply newline_is_space in N. congruence. }
  assert (is_space c = false ->
          tidy 2 (String c (squeeze false s))) as Hcopy.
  { intros H. cbn [tidy]. rewrite (Hns H), H. exact IH0. }
  split; [|split].
  - cbn [squeeze andb]. destruct (is_newline c) eqn:N.
    + destruct s as [|d s'].
      * cbn [tidy]. rewrite N. split; [lia | exact I].
      * destruct (is_space d) eqn:D.
        -- cbn [tidy]. change (is_newline newline) with true.
           cbn iota. split; [lia|]. split; [lia | exact IH2].
        -- cbn [tidy]. rewrite N. split; [lia|].
           apply tidy_two_one. now apply IHn.
    + cbn [tidy]. rewrite N. destruct (is_space c); [now split | exact IH0].
  - cbn [squeeze andb]. destruct (is_space c) eqn:Hsp; [exact IH2|].
    rewrite (Hns eq_refl). now apply Hcopy.
  - intros Hsp. cbn [squeeze andb]. rewrite (Hns Hsp). now apply Hcopy.
Qed.

Lemma tidy_after_newline (before after : string) (c : ascii) :
  forall seen,
    tidy seen (before ++ String newline (String c after)) ->
    is_space c = true ->
    c = newline.
Proof.
  induction before as [|x before IH]; intros seen H Hsp;
    cbn [append tidy] in H.
  - change (is_newline newline) with true in H. cbn iota in H.
    destruct H as [_ H]. cbn [tidy] in H.
    destruct (is_newline c) eqn:N; [now apply Ascii.eqb_eq in N|].
    rewrite Hsp in H. destruct H as [H _]. discriminate.
  - destruct (is_newline x); [destruct H as [_ H]; exact (IH _ H Hsp)|].
    destruct (is_space x); [destruct H as [_ H]|]; exact (IH _ H Hsp).
Qed.

Lemma tidy_after_two_newlines (before after : string) (c : ascii) :
  forall seen,
    tidy seen
      (before ++ String newline (String newline (String c after))) ->
    is_space c = false.
Proof.
  induction before as [|x before IH]; intros seen H; cbn [append tidy] in H.
  - change (is_newline newline) with true in H. cbn iota in H.
    destruct H as (_ & _ & H). cbn [tidy] in H.
    destruct (is_newline c); [destruct H as [H _]; lia|].
    destruct (is_space c); [destruct H as [H _]; discriminate | reflexivity].
  - destruct (is_newline x); [destruct H as [_ H]; exact (IH _ H)|].
    destruct (is_space x); [destruct H as [_ H]|]; exact (IH _ H).
Qed.

Lemma remove_empty_lines_start (s rest : string) :
  remove_empty_lines true s <> String newline rest.
Proof.
  induction s as [|c s IH]; cbn [remove_empty_lines]; [discriminate|].
  destruct (is_newline c) eqn:N; [exact IH|].
  intros H. injection H as -> _. discriminate.
Qed.

Lemma squeeze_start (s rest : string) :
  squeeze false s = String newline rest ->
  exists rest', s = String newline rest'.
Proof.
  destruct s as [|c s]; cbn [squeeze andb]; [discriminate|].
  destruct (is_newline c) eqn:N.
  - apply Ascii.eqb_eq in N. subst c. eauto.
  - intros H. injection H as -> _. discriminate.
Qed.

(** ** The substitution of the tables *)

Lemma contains_tail (needle : string) (c : ascii) (hay : string) :
  contains needle (String c hay) = false -> contains needle hay = false.
Proof.
  cbn [contains]. intros H. apply orb_false_iff in H. tauto.
Qed.

Lemma contains_prefix (needle hay : string) :
  contains needle hay = false -> prefix needle hay = false.
Proof.
  destruct hay; cbn [contains]; intros H; apply orb_false_iff in H; tauto.
Qed.

Lemma contains_drop (needle hay : string) (n : nat) :
  contains needle hay = false -> contains needle (drop n hay) = false.
Proof.
  revert n. induction hay as [|c hay IH]; intros n H.
  - destruct n; exact H.
  - destruct n as [|n]; [now rewrite drop_zero|].
    rewrite drop_String. apply IH. exact (contains_tail _ _ _ H).
Qed.

Lemma until_close_none (s : string) :
  contains close_tag s = false -> until_close s = None.
Proof.
  induction s as [|c s IH]; intros H.
  - reflexivity.
  - cbn [until_close]. rewrite (contains_prefix _ _ H).
    now rewrite (IH (contains_tail _ _ _ H)).
Qed.

Section Substitution.

Variable replace_table : string -> option string.

(** A text without an opening tag, or without a closing tag, has no
    match: it is copied. *)
Lemma sub_tables_copy (s : string) :
  contains open_tag s = false \/ contains close_tag s = false ->
  sub_tables replace_table 0 s = Some s.
Proof.
  induction s as [|c s IH]; intros H; [reflexivity|].
  cbn [sub_tables].
  assert (sub_tables replace_table 0 s = Some s) as E.
  { apply IH. destruct H as [H | H]; [left | right];
      exact (contains_tail _ _ _ H). }
  rewrite E. cbn [option_map].
  destruct H as [H | H].
  - now rewrite (contains_prefix _ _ H).
  - destruct (prefix open_tag (String c s)); [|reflexivity].
    now rewrite (until_close_none _ (contains_drop _ _ _ H)).
Qed.


End Substitution.

(** X26.  In the text that [transform_html_to_text] returns, a line feed is
    never followed by a blank, a tab or other whitespace, except by one
    more line feed; two line feeds are never followed by whitespace, so
    there are never three in a row; and the text does not begin with a
    line feed. *)
Theorem transform_html_to_text_newlines
    (replace_structured_macros handle : string -> string)
    (replace_table : string -> option string) (html text : string) :
  transform_html_to_text replace_structured_macros handle replace_table html
  = Some text ->
  (forall before c after,
     text = (before ++ String newline (String c after))%string ->
     is_space c = true -> c = newline)
  /\ (forall before c after,
        text
        = (before ++ String newline (String newline (String c after)))%string ->
        is_space c = false)
  /\ (forall rest, text <> String newline rest).
Proof.
  unfold transform_html_to_text. cbv zeta.
  destruct (sub_tables _ _ _) as [t|]; [|discriminate].
  intros H. injection H as <-.
  destruct (squeeze_tidy (remove_empty_lines true t)) as (T0 & _ & _).
  split; [|split].
  - intros before c after E. rewrite E in T0.
    exact (tidy_after_newline before after c 0 T0).
  - intros before c after E. rewrite E in T0.
    exact (tidy_after_two_newlines before after c 0 T0).
  - intros rest E. apply squeeze_start in E. destruct E as [rest' E].
    exact (remove_empty_lines_start t rest' E).
Qed.

Lemma transform_html_to_text_newlines_witness :
  let text := ("Titel" ++ Chunker.LF ++ Chunker.LF ++ "Absatz")%string in
  (forall before c after,
     text = (before ++ String newline (String c after))%string ->
     is_space c = true -> c = newline)
  /\ (forall before c after,
        text
        = (before ++ String newline (String newline (String c after)))%string ->
        is_space c = false)
  /\ (forall rest, text <> String newline rest).
Proof.
  cbv zeta.
  apply (transform_html_to_text_newlines
           (fun html => html) (fun html => html) (fun _ => None)
           ("Titel" ++ Chunker.LF ++ "   " ++ Chunker.LF ++ "  Absatz")).
  reflexivity.
Defined.

(** A text without a line feed is left as it is by the two last
    substitutions, whose patterns both need a line feed. *)
Lemma no_line_feed_head (c : ascii) (s : string) :
  contains Chunker.LF (String c s) = false -> is_newline c = false.
Proof.
  unfold Chunker.LF. cbn [contains prefix]. intros H.
  apply orb_false_iff in H as [H _].
  unfold is_newline, newline. apply Ascii.eqb_neq. intros ->.
  destruct (ascii_dec (ascii_of_nat 10) (ascii_of_nat 10)) as [_|N];
    [|now apply N].
  destruct s; discriminate.
Qed.

Lemma no_line_feed_unchanged (s : string) :
  contains Chunker.LF s = false ->
  (forall at_line_start, remove_empty_lines at_line_start s = s)
  /\ squeeze false s = s.
Proof.
  induction s as [|c s IH]; intros H; [split; reflexivity|].
  pose proof (no_line_feed_head c s H) as Hc.
  destruct (IH (contains_tail _ _ _ H)) as [IH1 IH2].
  split.
  - intros b. cbn [remove_empty_lines]. rewrite Hc. now rewrite IH1.
  - cbn [squeeze andb]. rewrite Hc. now rewrite IH2.
Qed.

(** X27.  On a page whose text, as [html2text] gives it, has no [<table>] or
    no [</table>], the substitution of the tables leaves the text as it
    is, [replace_table] is not called and nothing raises: the result is
    the same whatever [replace_table] is; and when the text has no line
    feed either, the result is that text. *)
Theorem transform_html_to_text_without_table
    (replace_structured_macros handle : string -> string)
    (replace_table : string -> option string) (html : string) :
  let text :=
    handle (if contains "<ac:structured-macro" html
            then replace_structured_macros html else html) in
  contains open_tag text = false \/ contains close_tag text = false ->
  sub_tables replace_table 0 text = Some text
  /\ (exists result,
        forall replace_table' : string -> option string,
          transform_html_to_text replace_structured_macros handle
            replace_table' html
          = Some result)
  /\ (contains Chunker.LF text = false ->
      transform_html_to_text replace_structured_macros handle replace_table
        html
      = Some text).
Proof.
  cbv zeta. intros H. split; [|split].
  - exact (sub_tables_copy replace_table _ H).
  - eexists. intros replace_table'. unfold transform_html_to_text. cbv zeta.
    rewrite (sub_tables_copy replace_table' _ H). reflexivity.
  - intros Hlf. unfold transform_html_to_text. cbv zeta.
    rewrite (sub_tables_copy replace_table _ H).
    destruct (no_line_feed_unchanged _ Hlf) as [H1 H2].
    now rewrite H1, H2.
Qed.

Lemma transform_html_to_text_without_table_witness :
  let text := ("Titel <table> ohne Ende")%string in
  sub_tables (fun _ => None) 0 text = Some text
  /\ (exists result,
        forall replace_table' : string -> option string,
          transform_html_to_text (fun html => html) (fun html => html)
            replace_table' text
          = Some result)
  /\ transform_html_to_text (fun html => html) (fun html => html)
       (fun _ => None) text
     = Some text.
Proof.
  cbv zeta.
  destruct (transform_html_to_text_without_table
              (fun html => html) (fun html => html) (fun _ => None)
              "Titel <table> ohne Ende") as (H1 & H2 & H3).
  - right. reflexivity.
  - split; [exact H1|]. split; [exact H2|]. apply H3. reflexivity.
Defined.



End TransformFacts.
